(** * URL collector: the form's URL rules and the webhook response handling

    A shallow embedding of the React components that carry logic:
    - [UrlForm] (normalizeUrl, validateUrl, handleInputChange, handleBlur,
      handleClear, handleKeyDown, handleSubmit and the effect on its prop);
    - [App] (postWebhook with looksLikeUrl and findImageDeep, addToast and
      removeToast with their timers, getFilename and handleDownloadImage,
      the rendering choice between spinner, image and note, and the theme
      with its start-up effect and toggleTheme);
    - [UrlPreview] (its timer, its flags and what it renders).

    Platform values are modelled as the engine has them: a string is its
    sequence of UTF-16 code units, a JSON number is a binary64 float, an
    object is its own properties in [Object.keys] order, an array is its
    list of elements. *)

From Stdlib Require Import List String Ascii Arith NArith Bool Lia Floats.
From Stdlib Require Import DecimalN.
Import ListNotations.

Local Open Scope N_scope.

(** ** Strings of the engine *)

Module JS.

Definition code_unit := N.
Definition jsstring := list code_unit.

(** A literal of the source text, as code units. *)
Definition lit (s : string) : jsstring :=
  map N_of_ascii (list_ascii_of_string s).

Fixpoint eqb (a b : jsstring) : bool :=
  match a, b with
  | [], [] => true
  | x :: a', y :: b' => (x =? y) && eqb a' b'
  | _, _ => false
  end.

(** Truthiness of a string: only the empty string is falsy. *)
Definition truthy (s : jsstring) : bool :=
  match s with [] => false | _ :: _ => true end.

(** [s.startsWith(p)] *)
Fixpoint startsWith (s p : jsstring) {struct p} : bool :=
  match p, s with
  | [], _ => true
  | _ :: _, [] => false
  | y :: p', x :: s' => (x =? y) && startsWith s' p'
  end.

(** [s.includes(p)] *)
Fixpoint includes (s p : jsstring) : bool :=
  startsWith s p ||
  match s with
  | [] => false
  | _ :: s' => includes s' p
  end.

(** WhiteSpace and LineTerminator code units, the set [trim] strips. *)
Definition isWhiteSpace (c : code_unit) : bool :=
  ((9 <=? c) && (c <=? 13)) || (c =? 32) || (c =? 160) || (c =? 5760)
  || ((8192 <=? c) && (c <=? 8202)) || (c =? 8232) || (c =? 8233)
  || (c =? 8239) || (c =? 8287) || (c =? 12288) || (c =? 65279).

Fixpoint dropWhile (f : code_unit -> bool) (s : jsstring) : jsstring :=
  match s with
  | [] => []
  | c :: s' => if f c then dropWhile f s' else s
  end.

Definition trimStart (s : jsstring) : jsstring := dropWhile isWhiteSpace s.
Definition trimEnd (s : jsstring) : jsstring :=
  rev (dropWhile isWhiteSpace (rev s)).

(** [s.trim()] *)
Definition trim (s : jsstring) : jsstring := trimEnd (trimStart s).

(** A string that [trim] leaves alone: no white space at either end. *)
Definition trimmed (s : jsstring) : Prop :=
  dropWhile isWhiteSpace s = s /\ dropWhile isWhiteSpace (rev s) = rev s.

(** [s.split(sep)] for a one-unit separator: the pieces between the
    separators, so a string with n separators gives n+1 pieces. *)
Fixpoint split (sep : code_unit) (s : jsstring) : list jsstring :=
  match s with
  | [] => [[]]
  | c :: s' =>
      if c =? sep then [] :: split sep s'
      else match split sep s' with
           | [] => [[c]]
           | piece :: pieces => (c :: piece) :: pieces
           end
  end.

(** [a.pop()]: the last element, [undefined] on an empty array. *)
Fixpoint pop {A : Type} (a : list A) : option A :=
  match a with
  | [] => None
  | [x] => Some x
  | _ :: a' => pop a'
  end.

Fixpoint digits (d : Decimal.uint) : jsstring :=
  match d with
  | Decimal.Nil => []
  | Decimal.D0 d' => 48 :: digits d'
  | Decimal.D1 d' => 49 :: digits d'
  | Decimal.D2 d' => 50 :: digits d'
  | Decimal.D3 d' => 51 :: digits d'
  | Decimal.D4 d' => 52 :: digits d'
  | Decimal.D5 d' => 53 :: digits d'
  | Decimal.D6 d' => 54 :: digits d'
  | Decimal.D7 d' => 55 :: digits d'
  | Decimal.D8 d' => 56 :: digits d'
  | Decimal.D9 d' => 57 :: digits d'
  end.

(** [n.toString()] of a non-negative integer: its decimal digits. *)
Definition toString (n : N) : jsstring := digits (N.to_uint n).

End JS.

Import JS.

(** ** The platform's [URL] object, as far as the components read it *)

Record URL := mkURL {
  protocol : jsstring;
  hostname : jsstring;
  origin : jsstring;
  pathname : jsstring
}.

(** A fragment of the URL parser of the WHATWG URL Standard (the algorithm
    behind [new URL(input)] with no base), used to evaluate the components
    on concrete addresses.  The scheme states are followed in full; for the
    special schemes other than [file] the authority, host, port and path
    states are followed on printable ASCII input.  Whatever needs the parts
    of the standard left out here (credentials, IPv4 and IPv6 hosts,
    percent-encoded or Punycode hosts, characters the path state would
    percent-encode, [file] and non-special schemes) is reported as
    [Outside]: the fragment says nothing about such input. *)

Module WHATWG.

Inductive outcome :=
| Parsed (u : URL)
| Failure
| Outside.

Definition isC0ControlOrSpace (c : code_unit) : bool := c <=? 32.
Definition isTabOrNewline (c : code_unit) : bool :=
  (c =? 9) || (c =? 10) || (c =? 13).
Definition isUpper (c : code_unit) : bool := (65 <=? c) && (c <=? 90).
Definition isLower (c : code_unit) : bool := (97 <=? c) && (c <=? 122).
Definition isAlpha (c : code_unit) : bool := isUpper c || isLower c.
Definition isDigit (c : code_unit) : bool := (48 <=? c) && (c <=? 57).
Definition toLower (c : code_unit) : code_unit :=
  if isUpper c then c + 32 else c.

(** Leading and trailing C0 control or space removed, then every tab and
    newline removed. *)
Definition clean (input : jsstring) : jsstring :=
  filter (fun c => negb (isTabOrNewline c))
    (rev (dropWhile isC0ControlOrSpace
       (rev (dropWhile isC0ControlOrSpace input)))).

(** Scheme state: the buffer grows over alphanumerics, [+], [-] and [.]
    until a colon; anything else means there is no scheme, a failure when
    there is no base URL. *)
Fixpoint schemeState (buffer rest : jsstring) : option (jsstring * jsstring) :=
  match rest with
  | [] => None
  | c :: r =>
      if isAlpha c || isDigit c || (c =? 43) || (c =? 45) || (c =? 46)
      then schemeState (buffer ++ [toLower c]) r
      else if c =? 58 then Some (buffer, r)
      else None
  end.

(** Scheme start state. *)
Definition schemeStartState (s : jsstring) : option (jsstring * jsstring) :=
  match s with
  | c :: r => if isAlpha c then schemeState [toLower c] r else None
  | [] => None
  end.

(** The special schemes with an authority, and their default ports. *)
Definition defaultPort (scheme : jsstring) : option N :=
  if eqb scheme (lit "ftp") then Some 21
  else if eqb scheme (lit "http") then Some 80
  else if eqb scheme (lit "https") then Some 443
  else if eqb scheme (lit "ws") then Some 80
  else if eqb scheme (lit "wss") then Some 443
  else None.

Definition isSlash (c : code_unit) : bool := (c =? 47) || (c =? 92).
Definition endsAuthority (c : code_unit) : bool :=
  isSlash c || (c =? 63) || (c =? 35).

Fixpoint break (f : code_unit -> bool) (s : jsstring) : jsstring * jsstring :=
  match s with
  | [] => ([], [])
  | c :: s' =>
      if f c then ([], s)
      else let (a, b) := break f s' in (c :: a, b)
  end.

Definition isPrintable (c : code_unit) : bool := (33 <=? c) && (c <=? 126).

(** Host characters the fragment covers: letters, digits, [-] and [.]. *)
Definition plainHostChar (c : code_unit) : bool :=
  isAlpha c || isDigit c || (c =? 45) || (c =? 46).

Definition punycodeLabel (label : jsstring) : bool :=
  startsWith (map toLower label) (lit "xn--").

(** A label the fragment covers: not empty and not Punycode. *)
Definition plainLabel (label : jsstring) : bool :=
  truthy label && negb (punycodeLabel label).

(** The last label starts with a letter, so the host does not end in a
    number and is not handed to the IPv4 parser. *)
Definition lastLabelAlpha (labels : list jsstring) : bool :=
  match pop labels with
  | Some (c :: _) => isAlpha c
  | _ => false
  end.

Definition plainHost (host : jsstring) : bool :=
  forallb plainHostChar host
  && forallb plainLabel (split 46 host)
  && lastLabelAlpha (split 46 host).

Fixpoint decimal (acc : N) (s : jsstring) : N :=
  match s with
  | [] => acc
  | c :: s' => decimal (10 * acc + (c - 48)) s'
  end.

(** Path characters that the path state appends unchanged. *)
Definition plainPathChar (c : code_unit) : bool :=
  isAlpha c || isDigit c
  || existsb (N.eqb c) (lit "-._~!$&'()*+,;=:@%").

Definition isSingleDot (buffer : jsstring) : bool :=
  let b := map toLower buffer in
  eqb b (lit ".") || eqb b (lit "%2e").

Definition isDoubleDot (buffer : jsstring) : bool :=
  let b := map toLower buffer in
  eqb b (lit "..") || eqb b (lit ".%2e")
  || eqb b (lit "%2e.") || eqb b (lit "%2e%2e").

(** What the path state does with the buffer when a segment ends;
    [slash] tells whether the segment ended at a slash. *)
Definition endSegment (path : list jsstring) (buffer : jsstring)
    (slash : bool) : list jsstring :=
  if isDoubleDot buffer then
    (if slash then removelast path else removelast path ++ [[]])
  else if isSingleDot buffer then
    (if slash then path else path ++ [[]])
  else path ++ [buffer].

(** Path state, up to the query or fragment; [None] on a character the
    fragment does not cover. *)
Fixpoint pathState (path : list jsstring) (buffer rest : jsstring)
    : option (list jsstring) :=
  match rest with
  | [] => Some (endSegment path buffer false)
  | c :: r =>
      if isSlash c then pathState (endSegment path buffer true) [] r
      else if (c =? 63) || (c =? 35) then Some (endSegment path buffer false)
      else if plainPathChar c then pathState path (buffer ++ [c]) r
      else None
  end.

(** Path start state of a special URL: a leading slash is consumed. *)
Definition pathStartState (rest : jsstring) : option (list jsstring) :=
  match rest with
  | c :: r => if isSlash c then pathState [] [] r else pathState [] [] rest
  | [] => pathState [] [] []
  end.

Definition serializePath (path : list jsstring) : jsstring :=
  List.concat (map (fun segment => 47 :: segment) path).

(** Authority, host and port states of a special URL, then its path. *)
Definition afterScheme (scheme rest : jsstring) (default : N) : outcome :=
  let (authority, rest') := break endsAuthority (dropWhile isSlash rest) in
  if existsb (fun c => (c =? 64) || (c =? 91) || (c =? 93) || (c =? 37)) authority
  then Outside
  else
    let (host, port) := break (N.eqb 58) authority in
    match host with
    | [] => Failure
    | _ :: _ =>
        if negb (plainHost host) then Outside
        else if negb (forallb isDigit (tl port)) then Failure
        else if 65535 <? decimal 0 (tl port) then Failure
        else
          match pathStartState rest' with
          | None => Outside
          | Some path =>
              let host' := map toLower host in
              let shown :=
                if truthy (tl port) && negb (decimal 0 (tl port) =? default)
                then 58 :: toString (decimal 0 (tl port)) else [] in
              Parsed {| protocol := scheme ++ lit ":";
                        hostname := host';
                        origin := scheme ++ lit "://" ++ host' ++ shown;
                        pathname := serializePath path |}
          end
    end.

Definition parse (input : jsstring) : outcome :=
  match schemeStartState (clean input) with
  | None => Failure
  | Some (scheme, rest) =>
      match defaultPort scheme with
      | None => Outside
      | Some default =>
          if forallb isPrintable rest then afterScheme scheme rest default
          else Outside
      end
  end.

(** The constructor as the components call it: the URL, or [None] for a
    throw.  Input outside the fragment also gives [None] here, so this
    instance is only evaluated on addresses the fragment covers; the
    general properties are stated for an arbitrary parser. *)
Definition newURL (input : jsstring) : option URL :=
  match parse input with
  | Parsed u => Some u
  | _ => None
  end.

End WHATWG.

(** ** The data passed from the form to the app *)

Record UrlData := mkUrlData {
  url : jsstring;
  domain : jsstring;
  favicon : option jsstring;
  title : option jsstring;
  description : option jsstring;
  image : option jsstring
}.

(** [a || b] on an optional string: [b] when [a] is missing or empty. *)
Definition orElse (a : option jsstring) (b : jsstring) : jsstring :=
  match a with
  | Some s => if truthy s then s else b
  | None => b
  end.

(** [a || undefined] *)
Definition orUndefined (a : option jsstring) : option jsstring :=
  match a with
  | Some s => if truthy s then Some s else None
  | None => None
  end.

(** ** UrlForm *)

Module UrlForm.

Record FormState := mkForm {
  formUrl : jsstring;
  error : jsstring;
  isLoading : bool
}.

(** What the metadata requests of handleSubmit produced: the three
    variables [title], [description] and [image] after the inner [try],
    all undefined when the requests were blocked. *)
Record Metadata := mkMetadata {
  metaTitle : option jsstring;
  metaDescription : option jsstring;
  metaImage : option jsstring
}.

Definition normalizeUrl (input : jsstring) : jsstring :=
  let trimmed := trim input in
  if negb (truthy trimmed) then lit ""
  else if startsWith trimmed (lit "http://")
          || startsWith trimmed (lit "https://")
  then trimmed
  else lit "https://" ++ trimmed.

Definition handleBlur (st : FormState) : FormState :=
  if truthy (formUrl st)
     && negb (startsWith (formUrl st) (lit "http://"))
     && negb (startsWith (formUrl st) (lit "https://"))
  then mkForm (normalizeUrl (formUrl st)) (error st) (isLoading st)
  else st.

Definition handleInputChange (value : jsstring) (st : FormState) : FormState :=
  mkForm value (lit "") (isLoading st).

Definition handleClear (st : FormState) : FormState :=
  mkForm (lit "") (lit "") (isLoading st).

(** What handleSubmit leaves when validation fails. *)
Definition invalidUrl (st : FormState) : FormState * option UrlData :=
  (mkForm (formUrl st) (lit "Please enter a valid URL") (isLoading st), None).

Section WithPlatform.

(** [new URL(input)]: the parsed URL, or [None] when the constructor throws. *)
Variable newURL : jsstring -> option URL.

Definition validateUrl (input : jsstring) : bool :=
  match newURL input with
  | Some urlObj =>
      eqb (protocol urlObj) (lit "http:")
      || eqb (protocol urlObj) (lit "https:")
  | None => false
  end.

(** handleSubmit: the form state it leaves, and the [UrlData] it passes to
    [onSubmit] when it gets that far. *)
Definition handleSubmit (meta : Metadata) (st : FormState)
    : FormState * option UrlData :=
  if negb (truthy (trim (formUrl st))) then
    (mkForm (formUrl st) (lit "Please enter a URL") (isLoading st), None)
  else
    let normalizedUrl := normalizeUrl (formUrl st) in
    if negb (validateUrl normalizedUrl) then invalidUrl st
    else
      match newURL normalizedUrl with
      | Some urlObj =>
          let domain := hostname urlObj in
          let favicon := origin urlObj ++ lit "/favicon.ico" in
          (mkForm (formUrl st) (lit "") false,
           Some {| url := normalizedUrl;
                   domain := domain;
                   favicon := Some favicon;
                   title := Some (orElse (metaTitle meta) domain);
                   description := orUndefined (metaDescription meta);
                   image := orUndefined (metaImage meta) |})
      | None =>
          (mkForm (formUrl st) (lit "Failed to process URL") false, None)
      end.

(** handleKeyDown for the key [e.key]; [meta] is what the metadata
    requests give if the key submits. *)
Definition handleKeyDown (key : jsstring) (meta : Metadata) (st : FormState)
    : FormState * option UrlData :=
  let (st1, data) :=
    if eqb key (lit "Enter") then handleSubmit meta st else (st, None) in
  if eqb key (lit "Escape") then (handleClear st1, data) else (st1, data).

(** The form on the page: its state and the [initialUrl] prop, which the
    app sets to the address it was last handed. *)
Record FormWorld := mkFormWorld {
  form : FormState;
  initialUrl : jsstring
}.

(** The form as first rendered with the prop [initialUrl]. *)
Definition mountForm (initialUrl : jsstring) : FormWorld :=
  mkFormWorld (mkForm initialUrl (lit "") false) initialUrl.

(** [onSubmit(urlData)] seen from the form: the app stores the data, the
    prop becomes its address, and the effect on [initialUrl] copies a
    changed prop into the field. *)
Definition submitted (result : FormState * option UrlData) (fw : FormWorld)
    : FormWorld :=
  match snd result with
  | Some data =>
      if eqb (initialUrl fw) (url data) then
        mkFormWorld (fst result) (initialUrl fw)
      else
        mkFormWorld
          (mkForm (url data) (error (fst result)) (isLoading (fst result)))
          (url data)
  | None => mkFormWorld (fst result) (initialUrl fw)
  end.

Inductive formEvent :=
| Change (value : jsstring)
| Blur
| ClickClear
| KeyDown (key : jsstring) (meta : Metadata)
| ClickSubmit (meta : Metadata).

Definition formStep (e : formEvent) (fw : FormWorld) : FormWorld :=
  match e with
  | Change value =>
      mkFormWorld (handleInputChange value (form fw)) (initialUrl fw)
  | Blur => mkFormWorld (handleBlur (form fw)) (initialUrl fw)
  | ClickClear => mkFormWorld (handleClear (form fw)) (initialUrl fw)
  | KeyDown key meta => submitted (handleKeyDown key meta (form fw)) fw
  | ClickSubmit meta => submitted (handleSubmit meta (form fw)) fw
  end.

Definition runForm (events : list formEvent) (fw : FormWorld) : FormWorld :=
  fold_left (fun fw' e => formStep e fw') events fw.

(** The message under the field, if any, is about the text now in the
    field. *)
Definition errorFits (st : FormState) : Prop :=
  error st = lit ""
  \/ (error st = lit "Please enter a URL" /\ trim (formUrl st) = [])
  \/ (error st = lit "Please enter a valid URL"
      /\ trim (formUrl st) <> []
      /\ validateUrl (normalizeUrl (formUrl st)) = false).

End WithPlatform.

End UrlForm.

(** ** App *)

Module App.

(** *** Values produced by [JSON.parse] *)

#[local] Unset Elimination Schemes.

Inductive value :=
| VNull
| VBoolean (b : bool)
| VNumber (x : float)
| VString (s : jsstring)
| VArray (elements : list value)
| VObject (properties : list (jsstring * value)).

#[local] Set Elimination Schemes.

Inductive typeName := TBoolean | TNumber | TString | TObject.

(** [typeof v]; note that [typeof null] is ['object']. *)
Definition typeof (v : value) : typeName :=
  match v with
  | VNull => TObject
  | VBoolean _ => TBoolean
  | VNumber _ => TNumber
  | VString _ => TString
  | VArray _ => TObject
  | VObject _ => TObject
  end.

Definition isObjectType (t : typeName) : bool :=
  match t with TObject => true | _ => false end.

(** Truthiness: [null], [false], [0], [NaN] and [''] are falsy. *)
Definition truthyValue (v : value) : bool :=
  match v with
  | VNull => false
  | VBoolean b => b
  | VNumber x => negb (PrimFloat.is_zero x || PrimFloat.is_nan x)
  | VString s => truthy s
  | VArray _ => true
  | VObject _ => true
  end.

Fixpoint lookup (name : jsstring) (properties : list (jsstring * value))
    : option value :=
  match properties with
  | [] => None
  | (key, val) :: rest => if eqb key name then Some val else lookup name rest
  end.

(** [obj.name] for a name that is neither an index nor [length]: an own
    property of an object, [undefined] ([None]) on an array. *)
Definition get (obj : value) (name : jsstring) : option value :=
  match obj with
  | VObject properties => lookup name properties
  | _ => None
  end.

(** [a ?? b]: [b] when [a] is [null] or [undefined]. *)
Definition coalesce (a b : option value) : option value :=
  match a with
  | None => b
  | Some VNull => b
  | Some _ => a
  end.

Infix "??" := coalesce (at level 45, right associativity).

(** *** The pattern [/^(data:image\/.+;base64,|https?:\/\/)/i] *)

(** Case folding of the [i] flag.  Every letter of the pattern is ASCII,
    and a code unit outside ASCII never folds to an ASCII one, so folding
    the ASCII lower-case letters decides every comparison the pattern
    makes. *)
Definition canonicalize (c : code_unit) : code_unit :=
  if (97 <=? c) && (c <=? 122) then c - 32 else c.

(** The input continues with the literal, letters compared case-folded:
    what is left of the input after it. *)
Fixpoint literal (pattern s : jsstring) {struct pattern}
    : option jsstring :=
  match pattern, s with
  | [], _ => Some s
  | _ :: _, [] => None
  | p :: pattern', c :: s' =>
      if canonicalize c =? canonicalize p then literal pattern' s' else None
  end.

Definition matchesLiteral (pattern s : jsstring) : bool :=
  match literal pattern s with Some _ => true | None => false end.

Definition isLineTerminator (c : code_unit) : bool :=
  (c =? 10) || (c =? 13) || (c =? 8232) || (c =? 8233).

(** [.+] followed by the literal: one unit that is no line terminator,
    then either the literal or more of the same. *)
Fixpoint dotPlusThen (pattern s : jsstring) : bool :=
  match s with
  | [] => false
  | c :: s' =>
      negb (isLineTerminator c)
      && (matchesLiteral pattern s' || dotPlusThen pattern s')
  end.

Definition looksLikeUrl (s : jsstring) : bool :=
  match literal (lit "data:image/") s with
  | Some rest => dotPlusThen (lit ";base64,") rest
  | None => false
  end
  ||
  match literal (lit "http") s with
  | Some rest =>
      matchesLiteral (lit "s://") rest || matchesLiteral (lit "://") rest
  | None => false
  end.

(** *** findImageDeep *)

(** [obj.image ?? obj.imageUrl ?? obj.image_url ?? obj.thumbnail ??
    obj.thumb ?? obj.url] *)
Definition direct (obj : value) : option value :=
  get obj (lit "image") ?? get obj (lit "imageUrl")
  ?? get obj (lit "image_url") ?? get obj (lit "thumbnail")
  ?? get obj (lit "thumb") ?? get obj (lit "url").

(** [typeof direct === 'string' && looksLikeUrl(direct)] *)
Definition directHit (obj : value) : option jsstring :=
  match direct obj with
  | Some (VString s) => if looksLikeUrl s then Some s else None
  | _ => None
  end.

(** The loop runs over [Object.keys(obj)]: the own properties of an
    object in their order, the indices of an array in theirs. *)
Fixpoint findImageDeep (obj : value) : option jsstring :=
  if negb (truthyValue obj) || negb (isObjectType (typeof obj)) then None
  else
    match directHit obj with
    | Some s => Some s
    | None =>
        match obj with
        | VObject properties =>
            (fix loop (ps : list (jsstring * value)) : option jsstring :=
               match ps with
               | [] => None
               | (_, val) :: ps' =>
                   match val with
                   | VString s => if looksLikeUrl s then Some s else loop ps'
                   | VArray _ | VObject _ =>
                       match findImageDeep val with
                       | Some found =>
                           if truthy found then Some found else loop ps'
                       | None => loop ps'
                       end
                   | _ => loop ps'
                   end
               end) properties
        | VArray elements =>
            (fix loop (vs : list value) : option jsstring :=
               match vs with
               | [] => None
               | val :: vs' =>
                   match val with
                   | VString s => if looksLikeUrl s then Some s else loop vs'
                   | VArray _ | VObject _ =>
                       match findImageDeep val with
                       | Some found =>
                           if truthy found then Some found else loop vs'
                       | None => loop vs'
                       end
                   | _ => loop vs'
                   end
               end) elements
        | _ => None
        end
    end.

(** One turn of the loop and the loop itself, named for the proofs. *)
Definition visit (val : value) : option jsstring :=
  match val with
  | VString s => if looksLikeUrl s then Some s else None
  | VArray _ | VObject _ =>
      match findImageDeep val with
      | Some found => if truthy found then Some found else None
      | None => None
      end
  | _ => None
  end.

Fixpoint scan (vals : list value) : option jsstring :=
  match vals with
  | [] => None
  | val :: vals' =>
      match visit val with
      | Some s => Some s
      | None => scan vals'
      end
  end.

(** [child v obj]: [v] is the value of an own property of the object
    [obj], or an element of the array [obj]. *)
Inductive child : value -> value -> Prop :=
| child_element (elements : list value) (v : value) :
    In v elements -> child v (VArray elements)
| child_property (properties : list (jsstring * value)) (key : jsstring)
    (v : value) :
    In (key, v) properties -> child v (VObject properties).

(** [inside s obj]: the string [s] is held somewhere below [obj], at any
    depth, through objects and arrays alike. *)
Inductive inside (s : jsstring) : value -> Prop :=
| inside_here (obj : value) : child (VString s) obj -> inside s obj
| inside_deeper (obj v : value) : child v obj -> inside s v -> inside s obj.

(** *** State of the component *)

Inductive ToastType := success | error | info.

Record ToastMessage := mkToast {
  id : jsstring;
  message : jsstring;
  type : ToastType
}.

Record AppState := mkApp {
  selectedUrl : option UrlData;
  toasts : list ToastMessage;
  webhookImage : option jsstring;
  webhookLoading : bool;
  webhookNote : option jsstring
}.

(** The values of the [useState] calls. *)
Definition initialApp : AppState :=
  {| selectedUrl := None; toasts := []; webhookImage := None;
     webhookLoading := false; webhookNote := None |}.

(** A timer set by [setTimeout]: when it is due (milliseconds) and the
    toast id its callback closes over. *)
Record Timer := mkTimer { due : N; target : jsstring }.

(** The component together with what the platform holds for it: the
    timers not yet run, the number of postWebhook calls waiting for their
    response, and the image addresses of the downloads waiting for
    theirs. *)
Record World := mkWorld {
  app : AppState;
  timers : list Timer;
  pending : nat;
  downloads : list jsstring
}.

Definition initial : World :=
  {| app := initialApp; timers := []; pending := 0%nat; downloads := [] |}.

Definition withApp (f : AppState -> AppState) (w : World) : World :=
  mkWorld (f (app w)) (timers w) (pending w) (downloads w).

Definition setSelectedUrl (v : option UrlData) (a : AppState) : AppState :=
  mkApp v (toasts a) (webhookImage a) (webhookLoading a) (webhookNote a).
Definition setToasts (f : list ToastMessage -> list ToastMessage)
    (a : AppState) : AppState :=
  mkApp (selectedUrl a) (f (toasts a)) (webhookImage a) (webhookLoading a)
    (webhookNote a).
Definition setWebhookImage (v : option jsstring) (a : AppState) : AppState :=
  mkApp (selectedUrl a) (toasts a) v (webhookLoading a) (webhookNote a).
Definition setWebhookLoading (v : bool) (a : AppState) : AppState :=
  mkApp (selectedUrl a) (toasts a) (webhookImage a) v (webhookNote a).
Definition setWebhookNote (v : option jsstring) (a : AppState) : AppState :=
  mkApp (selectedUrl a) (toasts a) (webhookImage a) (webhookLoading a) v.

(** *** Toasts *)

Definition keepOthers (i : jsstring) (ts : list ToastMessage)
    : list ToastMessage :=
  filter (fun toast => negb (eqb (id toast) i)) ts.

(** addToast at time [now] (the value of [Date.now()], in milliseconds):
    the toast is appended and a timer is set for 3000 ms later. *)
Definition addToast (now : N) (message : jsstring) (type : ToastType)
    (w : World) : World :=
  let id := toString now in
  mkWorld (setToasts (fun prev => prev ++ [mkToast id message type]) (app w))
    (timers w ++ [mkTimer (now + 3000) id])
    (pending w) (downloads w).

Definition removeToast (i : jsstring) (w : World) : World :=
  withApp (setToasts (keepOthers i)) w.

(** The callback of a timer. *)
Definition expire (t : Timer) (w : World) : World :=
  withApp (setToasts (keepOthers (target t))) w.

(** The platform at time [now]: every timer due by then has run, in the
    order the timers were set, and is gone. *)
Definition elapse (now : N) (w : World) : World :=
  fold_left (fun w' t => expire t w')
    (filter (fun t => due t <=? now) (timers w))
    (mkWorld (app w) (filter (fun t => negb (due t <=? now)) (timers w))
       (pending w) (downloads w)).

(** *** postWebhook *)

Definition Blob := list Byte.byte.

(** A response of [fetch]: its status, its [content-type] header, and
    what each way of reading the body gives, [None] when the read
    rejects ([json] also when the body is not JSON). *)
Record Response := mkResponse {
  status : N;
  contentTypeHeader : option jsstring;
  blob : option Blob;
  json : option value;
  text : option jsstring
}.

Definition ok (res : Response) : bool :=
  (200 <=? status res) && (status res <=? 299).

(** [res.headers.get('content-type') || ''] *)
Definition contentType (res : Response) : jsstring :=
  match contentTypeHeader res with
  | Some h => h
  | None => lit ""
  end.

Definition noteNoImage : jsstring :=
  lit "Webhook responded but no image field was found.".
Definition noteNoBody : jsstring := lit "Webhook responded with no body.".
Definition noteError : jsstring := lit "Webhook responded with an error.".
Definition noteCors : jsstring :=
  lit "Couldn't load webhook response due to site restrictions (CORS). ".

(** The [catch] block. *)
Definition caught (now : N) (w : World) : World :=
  withApp (setWebhookNote (Some noteCors))
    (addToast now
       (lit "Couldn't send URL due to site restrictions (CORS)") info w).

Definition received (now : N) (src : jsstring) (w : World) : World :=
  addToast now (lit "Preview received from webhook") success
    (withApp (setWebhookImage (Some src)) w).

Definition noted (now : N) (note : jsstring) (w : World) : World :=
  addToast now (lit "URL sent successfully") success
    (withApp (setWebhookNote (Some note)) w).

Section WithPlatform.

(** [URL.createObjectURL(blob)]: the address the platform mints. *)
Variable createObjectURL : Blob -> jsstring.

(** [new URL(input)], [None] when it throws. *)
Variable newURL : jsstring -> option URL.

(** The statements of postWebhook before [await fetch]. *)
Definition postWebhookStart (w : World) : World :=
  withApp (fun a =>
    setWebhookNote None (setWebhookImage None (setWebhookLoading true a))) w.

(** The [try] block from the response on; [fetched] is [None] when
    [fetch] itself rejects. *)
Definition interpret (now : N) (fetched : option Response) (w : World)
    : World :=
  match fetched with
  | None => caught now w
  | Some res =>
      if ok res then
        if startsWith (contentType res) (lit "image/") then
          match blob res with
          | Some b => received now (createObjectURL b) w
          | None => caught now w
          end
        else if includes (contentType res) (lit "application/json") then
          let data := match json res with Some v => v | None => VNull end in
          match findImageDeep data with
          | Some found =>
              if truthy found then received now found w
              else noted now noteNoImage w
          | None => noted now noteNoImage w
          end
        else
          match text res with
          | Some text =>
              if truthy text && looksLikeUrl (trim text)
              then received now (trim text) w
              else if negb (truthy text) then noted now noteNoBody w
              else noted now noteNoImage w
          | None => caught now w
          end
      else
        withApp (setWebhookNote (Some noteError))
          (addToast now (lit "Webhook responded with an error") error w)
  end.

(** postWebhook from the response on, with its [finally] block. *)
Definition postWebhookSettle (now : N) (fetched : option Response)
    (w : World) : World :=
  withApp (setWebhookLoading false) (interpret now fetched w).

(** One call of postWebhook run to its end with nothing in between. *)
Definition postWebhook (now : N) (fetched : option Response) (w : World)
    : World :=
  postWebhookSettle now fetched (postWebhookStart w).

(** *** Download *)

Definition getFilename (urlStr : jsstring) : jsstring :=
  if startsWith urlStr (lit "data:image/") then lit "preview.png"
  else
    match newURL urlStr with
    | Some u =>
        let name :=
          match pop (split 47 (pathname u)) with
          | Some segment => if truthy segment then segment else lit "preview"
          | None => lit "preview"
          end in
        if includes name (lit ".") then name else name ++ lit ".png"
    | None => lit "preview.png"
    end.

(** What [triggerDownload(href, filename)] is called with. *)
Record Download := mkDownload { href : jsstring; filename : jsstring }.

Definition isLocalReference (src : jsstring) : bool :=
  startsWith src (lit "blob:") || startsWith src (lit "data:").

(** handleDownloadImage up to its [await]: a local reference is saved at
    once, a remote one is fetched first. *)
Definition handleDownloadImage (now : N) (w : World)
    : World * option Download :=
  match webhookImage (app w) with
  | None => (w, None)
  | Some src =>
      if negb (truthy src) then (w, None)
      else if isLocalReference src then
        (addToast now (lit "Download started") success w,
         Some (mkDownload src (getFilename src)))
      else
        (mkWorld (app w) (timers w) (pending w) (downloads w ++ [src]), None)
  end.

(** handleDownloadImage after the [await] for the remote reference [src];
    [body] is [None] when the fetch or the read rejects. *)
Definition downloadSettle (now : N) (src : jsstring) (body : option Blob)
    (w : World) : World * option Download :=
  match body with
  | Some b =>
      (addToast now (lit "Download started") success w,
       Some (mkDownload (createObjectURL b) (getFilename src)))
  | None => (addToast now (lit "Failed to download image") error w, None)
  end.

(** *** What is shown under "Webhook Response" *)

Inductive View :=
| Hidden
| Spinner
| Image (src : jsstring)
| NoteText (text : jsstring).

Definition render (a : AppState) : View :=
  match selectedUrl a with
  | None => Hidden
  | Some _ =>
      if webhookLoading a then Spinner
      else
        match webhookImage a with
        | Some src =>
            if truthy src then Image src
            else NoteText (match webhookNote a with
                           | Some n => n
                           | None => lit "No webhook response yet."
                           end)
        | None =>
            NoteText (match webhookNote a with
                      | Some n => n
                      | None => lit "No webhook response yet."
                      end)
        end
  end.

(** *** The component over time *)

Inductive event :=
| Submit (urlData : UrlData)
| Respond (fetched : option Response)
| Dismiss (toastId : jsstring)
| ClickDownload
| Downloaded (k : nat) (body : option Blob).

Fixpoint removeAt {A : Type} (k : nat) (l : list A) : list A :=
  match k, l with
  | _, [] => []
  | O, _ :: l' => l'
  | S k', x :: l' => x :: removeAt k' l'
  end.

(** One event at time [now], after the timers due by then have run.
    [None] when the event cannot happen: a response with no call waiting
    for it, or a download that was never started. *)
Definition handle (now : N) (e : event) (w : World) : option World :=
  let w := elapse now w in
  match e with
  | Submit urlData =>
      Some (postWebhookStart
              (mkWorld (setSelectedUrl (Some urlData) (app w)) (timers w)
                 (S (pending w)) (downloads w)))
  | Respond fetched =>
      match pending w with
      | O => None
      | S n =>
          Some (postWebhookSettle now fetched
                  (mkWorld (app w) (timers w) n (downloads w)))
      end
  | Dismiss toastId => Some (removeToast toastId w)
  | ClickDownload => Some (fst (handleDownloadImage now w))
  | Downloaded k body =>
      match nth_error (downloads w) k with
      | None => None
      | Some src =>
          Some (fst (downloadSettle now src body
                       (mkWorld (app w) (timers w) (pending w)
                          (removeAt k (downloads w)))))
      end
  end.

Fixpoint run (trace : list (N * event)) (w : World) : option World :=
  match trace with
  | [] => Some w
  | (now, e) :: rest =>
      match handle now e w with
      | Some w' => run rest w'
      | None => None
      end
  end.

(** No submission while an earlier one waits for its response. *)
Fixpoint sequential (trace : list (N * event)) (w : World) : bool :=
  match trace with
  | [] => true
  | (now, e) :: rest =>
      match e with
      | Submit _ => Nat.eqb (pending w) 0
      | _ => true
      end
      && match handle now e w with
         | Some w' => sequential rest w'
         | None => true
         end
  end.

End WithPlatform.

(** *** Vocabulary of the properties *)

(** Two strings the pattern cannot tell apart: equal after case folding. *)
Definition sameFolded (a b : jsstring) : Prop :=
  map canonicalize a = map canonicalize b.

(** The toast that addToast appends at time [now]. *)
Definition toastAt (now : N) (message : jsstring) (type : ToastType)
    : ToastMessage :=
  mkToast (toString now) message type.

(** Two worlds with the same toasts and timers. *)
Definition sameToasts (w w' : World) : Prop :=
  toasts (app w') = toasts (app w) /\ timers w' = timers w.

(** [w'] is [w] after one addToast at time [now], other fields aside. *)
Definition oneToast (now : N) (w w' : World) : Prop :=
  exists message type,
    toasts (app w') = toasts (app w) ++ [toastAt now message type]
    /\ timers w' = timers w ++ [mkTimer (now + 3000) (toString now)].

(** The result slots of [w'] are those of [w]. *)
Definition sameResult (w w' : World) : Prop :=
  webhookImage (app w') = webhookImage (app w)
  /\ webhookNote (app w') = webhookNote (app w)
  /\ webhookLoading (app w') = webhookLoading (app w)
  /\ pending w' = pending w.

(** Every toast with id [i] still has a timer aimed at [i] that is due
    by [limit]. *)
Definition covered (i : jsstring) (limit : N) (w : World) : Prop :=
  forall toast, In toast (toasts (app w)) -> id toast = i ->
  exists t, In t (timers w) /\ target t = i /\ due t <= limit.

(** The result slots hold at most one result, and none while a
    submission waits for its response. *)
Definition oneResult (w : World) : Prop :=
  (pending w <= 1)%nat
  /\ (webhookImage (app w) = None \/ webhookNote (app w) = None)
  /\ (pending w = 1%nat ->
      webhookImage (app w) = None /\ webhookNote (app w) = None
      /\ webhookLoading (app w) = true).

(** *** Responses, traces and platform used as examples *)

(** The body [{"data":{"thumb":"https://x/y.png"}}], parsed. *)
Definition exampleData : value :=
  VObject [(lit "data", VObject [(lit "thumb", VString (lit "https://x/y.png"))])].

(** The body [{"items":["https://x/y.png"]}], parsed. *)
Definition arrayData : value :=
  VObject [(lit "items", VArray [VString (lit "https://x/y.png")])].

(** The body [{"image":"n/a","nested":{"x":"https://x/deep.png"},
    "url":"https://x/top.png"}], parsed. *)
Definition shadowedData : value :=
  VObject [(lit "image", VString (lit "n/a"));
           (lit "nested",
            VObject [(lit "x", VString (lit "https://x/deep.png"))]);
           (lit "url", VString (lit "https://x/top.png"))].

Definition jsonResponse (data : value) : Response :=
  mkResponse 200 (Some (lit "application/json")) None (Some data) None.

(** A platform whose object URLs are all [blob:]. *)
Definition noBlobUrl (b : Blob) : jsstring := lit "blob:".

Definition exampleUrl : UrlData :=
  mkUrlData (lit "https://example.com") (lit "example.com")
    (Some (lit "https://example.com/favicon.ico"))
    (Some (lit "example.com")) None None.

(** A submission answered before anything else happens. *)
Definition answeredTrace : list (N * event) :=
  [(0, Submit exampleUrl); (800, Respond (Some (jsonResponse exampleData)))].

(** Two submissions, the second made before the first is answered; the
    first answer carries an image, the second none. *)
Definition overlappingTrace : list (N * event) :=
  [(0, Submit exampleUrl);
   (100, Submit exampleUrl);
   (800, Respond (Some (jsonResponse exampleData)));
   (900, Respond (Some (jsonResponse (VObject [(lit "status", VString (lit "ok"))]))))].

(** The world a trace leads to from the initial one. *)
Definition after (trace : list (N * event)) : World :=
  match run noBlobUrl WHATWG.newURL trace initial with
  | Some w => w
  | None => initial
  end.

(** *** Further vocabulary *)

(** The six keys of [direct], in its order. *)
Definition priorityKeys : list jsstring :=
  [lit "image"; lit "imageUrl"; lit "image_url"; lit "thumbnail";
   lit "thumb"; lit "url"].

(** [undefined] or [null]. *)
Definition isNullish (v : option value) : bool :=
  match v with
  | None => true
  | Some VNull => true
  | Some _ => false
  end.

(** A chain [v1 ?? v2 ?? ... ?? vn]. *)
Fixpoint firstPresent (vals : list (option value)) : option value :=
  match vals with
  | [] => None
  | [v] => v
  | v :: rest => v ?? firstPresent rest
  end.

(** [s.endsWith(p)] *)
Definition endsWith (s p : jsstring) : bool := startsWith (rev s) (rev p).

(** What a claim about "an image content type" or "a JSON content type"
    speaks of: the media type a [content-type] header names, which is the
    text before the first [;], without white space around it, letters in
    lower case.  An image type is one whose type is [image]; a JSON type
    is [application/json], [text/json], or one whose subtype ends in
    [+json].  The code does not compute this: it tests the raw header
    with [startsWith('image/')] and [includes('application/json')]. *)
Definition mediaType (header : jsstring) : jsstring :=
  map WHATWG.toLower (trim (fst (WHATWG.break (N.eqb 59) header))).

Definition denotesImage (header : jsstring) : bool :=
  startsWith (mediaType header) (lit "image/").

Definition denotesJson (header : jsstring) : bool :=
  eqb (mediaType header) (lit "application/json")
  || eqb (mediaType header) (lit "text/json")
  || endsWith (mediaType header) (lit "+json").

(** The four notes postWebhook can leave. *)
Definition fixedNotes : list jsstring :=
  [noteNoImage; noteNoBody; noteError; noteCors].

(** Every timer was set by addToast: it is due 3000 ms after the time
    its target id spells. *)
Definition wellTimed (w : World) : Prop :=
  forall t, In t (timers w) ->
    3000 <= due t /\ target t = toString (due t - 3000).

(** At most one response is awaited, and the loading flag is set exactly
    while one is. *)
Definition busy (w : World) : Prop :=
  (pending w <= 1)%nat
  /\ (webhookLoading (app w) = true <-> pending w = 1%nat).

(** A step that happens before [T + 3000] and is no dismissal of the
    toast made at [T]. *)
Definition undisturbed (T : N) (step : N * event) : Prop :=
  fst step < T + 3000 /\ snd step <> Dismiss (toString T).

End App.

(** ** App: the theme *)

Module Theme.

(** The flag of the component, the entry [theme] of [localStorage]
    ([None] when there is none), and whether the root element carries the
    class [dark]. *)
Record ThemeState := mkTheme {
  isDark : bool;
  savedTheme : option jsstring;
  darkClass : bool
}.

(** A page that has just been loaded on top of what [localStorage]
    holds: [useState(false)] and a root element without the class. *)
Definition loaded (stored : option jsstring) : ThemeState :=
  mkTheme false stored false.

(** The effect run once after the first render; [prefersDark] is what
    [matchMedia('(prefers-color-scheme: dark)')] reports. *)
Definition applySavedTheme (prefersDark : bool) (st : ThemeState)
    : ThemeState :=
  let shouldUseDark :=
    match savedTheme st with
    | Some saved => eqb saved (lit "dark")
    | None => false
    end
    || (negb (match savedTheme st with
              | Some saved => truthy saved
              | None => false
              end)
        && prefersDark) in
  mkTheme shouldUseDark (savedTheme st) shouldUseDark.

Definition toggleTheme (st : ThemeState) : ThemeState :=
  let newIsDark := negb (isDark st) in
  mkTheme newIsDark
    (Some (if newIsDark then lit "dark" else lit "light"))
    newIsDark.

(** [n] clicks on the toggle. *)
Fixpoint toggles (n : nat) (st : ThemeState) : ThemeState :=
  match n with
  | O => st
  | S n' => toggles n' (toggleTheme st)
  end.

(** A visit: the page is loaded, the effect runs, the toggle is clicked
    [n] times. *)
Definition session (prefersDark : bool) (stored : option jsstring) (n : nat)
    : ThemeState :=
  toggles n (applySavedTheme prefersDark (loaded stored)).

End Theme.

(** ** UrlPreview *)

Module UrlPreview.

Record PreviewState := mkPreview {
  faviconError : bool;
  imageError : bool;
  isLoading : bool;
  corsBlocked : bool
}.

(** The values of the [useState] calls. *)
Definition mounted : PreviewState := mkPreview false false true false.

(** [!urlData.title || urlData.title === urlData.domain] *)
Definition lacksOwnTitle (urlData : UrlData) : bool :=
  match title urlData with
  | Some t => negb (truthy t) || eqb t (domain urlData)
  | None => true
  end.

(** The callback of the 1000 ms timer set by the effect on [urlData]. *)
Definition timerFired (urlData : UrlData) (st : PreviewState)
    : PreviewState :=
  mkPreview (faviconError st) (imageError st) false
    (if lacksOwnTitle urlData then true else corsBlocked st).

Definition handleFaviconError (st : PreviewState) : PreviewState :=
  mkPreview true (imageError st) (isLoading st) (corsBlocked st).

Definition handleImageError (st : PreviewState) : PreviewState :=
  mkPreview (faviconError st) true (isLoading st) (corsBlocked st).

(** handleCopyUrl: the call of [onToast] it ends with; [written] tells
    whether the clipboard took the text. *)
Definition handleCopyUrl (written : bool) : jsstring * App.ToastType :=
  if written then (lit "URL copied to clipboard!", App.success)
  else (lit "Failed to copy URL", App.error).

(** What is rendered once loading is over. *)
Record Card := mkCard {
  faviconShown : bool;
  heading : jsstring;
  address : jsstring;
  cardTitle : option jsstring;
  cardDescription : option jsstring;
  cardImage : option jsstring;
  noticeShown : bool
}.

Inductive PreviewView :=
| Skeleton
| Shown (card : Card).

Definition isTruthy (v : option jsstring) : bool :=
  match v with
  | Some s => truthy s
  | None => false
  end.

(** [urlData.title && urlData.title !== urlData.domain] *)
Definition hasOwnTitle (urlData : UrlData) : bool :=
  match title urlData with
  | Some t => truthy t && negb (eqb t (domain urlData))
  | None => false
  end.

Definition render (urlData : UrlData) (st : PreviewState) : PreviewView :=
  if isLoading st then Skeleton
  else
    Shown {|
      faviconShown := isTruthy (favicon urlData) && negb (faviconError st);
      heading := domain urlData;
      address := url urlData;
      cardTitle := if hasOwnTitle urlData then title urlData else None;
      cardDescription :=
        if hasOwnTitle urlData && isTruthy (description urlData)
        then description urlData else None;
      cardImage :=
        if hasOwnTitle urlData && isTruthy (image urlData)
           && negb (imageError st)
        then image urlData else None;
      noticeShown := corsBlocked st
    |}.

(** The component over time: its props, its state, and when the timer
    set by the effect is due, if it has not run or been cleared. *)
Record PreviewWorld := mkPreviewWorld {
  props : UrlData;
  state : PreviewState;
  timer : option N
}.

Definition mount (now : N) (urlData : UrlData) : PreviewWorld :=
  mkPreviewWorld urlData mounted (Some (now + 1000)).

Inductive previewEvent :=
| NewProps (urlData : UrlData)
| FaviconFailed
| ImageFailed.

(** The timer runs once it is due. *)
Definition tick (now : N) (pw : PreviewWorld) : PreviewWorld :=
  match timer pw with
  | Some due =>
      if due <=? now then
        mkPreviewWorld (props pw) (timerFired (props pw) (state pw)) None
      else pw
  | None => pw
  end.

(** One event at time [now]; new props clear the timer and set one for
    the new data. *)
Definition previewStep (now : N) (e : previewEvent) (pw : PreviewWorld)
    : PreviewWorld :=
  let pw := tick now pw in
  match e with
  | NewProps urlData => mkPreviewWorld urlData (state pw) (Some (now + 1000))
  | FaviconFailed =>
      mkPreviewWorld (props pw) (handleFaviconError (state pw)) (timer pw)
  | ImageFailed =>
      mkPreviewWorld (props pw) (handleImageError (state pw)) (timer pw)
  end.

Definition runPreview (trace : list (N * previewEvent)) (pw : PreviewWorld)
    : PreviewWorld :=
  fold_left (fun pw' step => previewStep (fst step) (snd step) pw') trace pw.

Definition keepsProps (step : N * previewEvent) : Prop :=
  match snd step with
  | NewProps _ => False
  | _ => True
  end.

(** The component [1000] ms after it was mounted with [urlData] at
    [since], as long as the props stay: either the timer is still to
    run and the skeleton is up, or it has run. *)
Definition settling (urlData : UrlData) (since : N) (pw : PreviewWorld)
    : Prop :=
  props pw = urlData
  /\ ((timer pw = Some (since + 1000)
       /\ isLoading (state pw) = true /\ corsBlocked (state pw) = false)
      \/ (timer pw = None
          /\ isLoading (state pw) = false
          /\ corsBlocked (state pw) = lacksOwnTitle urlData)).

End UrlPreview.

(** * Properties *)

(** ** Strings *)

Module JSFacts.

Lemma eqb_eq (a b : jsstring) : eqb a b = true <-> a = b.
Proof.
  revert b; induction a as [|x a IH]; intros [|y b]; simpl;
    try (split; [discriminate|discriminate]); try tauto.
  rewrite andb_true_iff, N.eqb_eq, IH.
  split; [intros [-> ->]; reflexivity | intros E; inversion E; auto].
Qed.

Lemma eqb_neq (a b : jsstring) : eqb a b = false <-> a <> b.
Proof.
  rewrite <- eqb_eq. destruct (eqb a b); split; congruence.
Qed.

Lemma startsWith_app (p rest : jsstring) : startsWith (p ++ rest) p = true.
Proof.
  induction p as [|y p IH]; simpl; [reflexivity|].
  now rewrite N.eqb_refl, IH.
Qed.

Lemma startsWith_iff (s p : jsstring) :
  startsWith s p = true <-> exists rest, s = p ++ rest.
Proof.
  split.
  - revert s; induction p as [|y p IH]; intros s H.
    + now exists s.
    + destruct s as [|x s]; simpl in H; [discriminate|].
      apply andb_true_iff in H as [Hx Hs]. apply N.eqb_eq in Hx as ->.
      destruct (IH _ Hs) as [rest ->]. now exists rest.
  - intros [rest ->]. apply startsWith_app.
Qed.

Lemma dropWhile_idem (f : code_unit -> bool) (s : jsstring) :
  dropWhile f (dropWhile f s) = dropWhile f s.
Proof.
  induction s as [|c s IH]; simpl; [reflexivity|].
  destruct (f c) eqn:E; [exact IH|]. simpl. now rewrite E.
Qed.

Lemma dropWhile_suffix (f : code_unit -> bool) (s : jsstring) :
  exists dropped, s = dropped ++ dropWhile f s.
Proof.
  induction s as [|c s [d IH]]; simpl.
  - now exists [].
  - destruct (f c).
    + exists (c :: d). simpl. now f_equal.
    + now exists [].
Qed.

Lemma dropWhile_app_fixed (f : code_unit -> bool) (s after : jsstring) :
  s <> [] -> dropWhile f s = s -> dropWhile f (s ++ after) = s ++ after.
Proof.
  destruct s as [|c s]; [congruence|]. intros _. simpl.
  destruct (f c) eqn:E; [|reflexivity].
  intros H. exfalso.
  destruct (dropWhile_suffix f s) as [d Hd].
  rewrite H in Hd. apply (f_equal (@List.length _)) in Hd.
  rewrite !length_app in Hd. simpl in Hd. lia.
Qed.

Lemma trim_of_trimmed (s : jsstring) : trimmed s -> trim s = s.
Proof.
  intros [H1 H2]. unfold trim, trimEnd, trimStart.
  now rewrite H1, H2, rev_involutive.
Qed.

Lemma trim_trimmed (s : jsstring) : trimmed (trim s).
Proof.
  unfold trimmed, trim, trimEnd, trimStart.
  set (a := dropWhile isWhiteSpace s).
  set (b := dropWhile isWhiteSpace (rev a)).
  split.
  - destruct (dropWhile_suffix isWhiteSpace (rev a)) as [d Hd].
    fold b in Hd.
    assert (Ha : a = rev b ++ rev d).
    { rewrite <- rev_app_distr, <- Hd. now rewrite rev_involutive. }
    assert (Hfix : dropWhile isWhiteSpace a = a) by apply dropWhile_idem.
    rewrite Ha in Hfix. clear Ha Hd.
    destruct (rev b) as [|c r]; [reflexivity|].
    simpl in *.
    destruct (isWhiteSpace c) eqn:E; [|reflexivity].
    exfalso.
    destruct (dropWhile_suffix isWhiteSpace (r ++ rev d)) as [d' Hd'].
    rewrite Hfix in Hd'. apply (f_equal (@List.length _)) in Hd'.
    rewrite !length_app in Hd'. simpl in Hd'. rewrite ?length_app in Hd'. lia.
  - rewrite rev_involutive. apply dropWhile_idem.
Qed.

Lemma trim_idempotent (s : jsstring) : trim (trim s) = trim s.
Proof. apply trim_of_trimmed, trim_trimmed. Qed.

Lemma trimmed_prepend (p s : jsstring) :
  p <> [] -> dropWhile isWhiteSpace p = p ->
  s <> [] -> trimmed s -> trimmed (p ++ s).
Proof.
  intros Hp Hpf Hs [_ H2]. split.
  - now apply dropWhile_app_fixed.
  - rewrite rev_app_distr. apply dropWhile_app_fixed; [|exact H2].
    intros E. apply Hs. apply (f_equal (@rev _)) in E.
    now rewrite rev_involutive in E.
Qed.

Lemma truthy_true (s : jsstring) : truthy s = true <-> s <> [].
Proof. destruct s; simpl; split; congruence. Qed.

Lemma truthy_false (s : jsstring) : truthy s = false <-> s = [].
Proof. destruct s; simpl; split; congruence. Qed.

Lemma digits_inj (d d' : Decimal.uint) : digits d = digits d' -> d = d'.
Proof.
  revert d'; induction d; intros d'; destruct d'; simpl; intros H;
    try discriminate; try reflexivity;
    injection H as H; try (apply N.eqb_eq in H; discriminate);
    f_equal; auto.
Qed.

Lemma toString_inj (n m : N) : toString n = toString m -> n = m.
Proof.
  unfold toString. intros H. apply digits_inj in H.
  now apply DecimalN.Unsigned.to_uint_inj.
Qed.

Lemma split_nonempty (sep : code_unit) (s : jsstring) : split sep s <> [].
Proof.
  induction s as [|c s IH]; simpl; [discriminate|].
  destruct (c =? sep); [discriminate|].
  destruct (split sep s); [congruence|discriminate].
Qed.

Lemma split_app (sep : code_unit) (a b : jsstring) :
  split sep (a ++ sep :: b) = split sep a ++ split sep b.
Proof.
  induction a as [|c a IH]; simpl.
  - now rewrite N.eqb_refl.
  - destruct (c =? sep); [now rewrite IH|].
    rewrite IH. pose proof (split_nonempty sep a) as Hne.
    destruct (split sep a); [congruence|reflexivity].
Qed.

Lemma split_plain (sep : code_unit) (s : jsstring) :
  ~ In sep s -> split sep s = [s].
Proof.
  induction s as [|c s IH]; simpl; intros H; [reflexivity|].
  destruct (N.eqb_spec c sep) as [->|_]; [tauto|].
  rewrite IH by tauto. reflexivity.
Qed.

Lemma pop_app {A : Type} (front back : list A) :
  back <> [] -> pop (front ++ back) = pop back.
Proof.
  intros Hb. induction front as [|x front IH]; [reflexivity|].
  simpl. destruct (front ++ back) eqn:E; [|exact IH].
  destruct front; simpl in E; congruence.
Qed.

End JSFacts.

Import JSFacts.

(** ** UrlForm: normalizeUrl and validateUrl *)

Module UrlFormFacts.

Import UrlForm.

Lemma normalizeUrl_blank (input : jsstring) :
  trim input = [] -> normalizeUrl input = [].
Proof. unfold normalizeUrl. now intros ->. Qed.

Lemma normalizeUrl_with_scheme (input : jsstring) :
  startsWith (trim input) (lit "http://") = true
  \/ startsWith (trim input) (lit "https://") = true ->
  normalizeUrl input = trim input.
Proof.
  unfold normalizeUrl. intros H.
  destruct (trim input) as [|c t] eqn:E; [reflexivity|].
  cbn [truthy negb].
  destruct H as [-> | ->]; [reflexivity | now rewrite orb_true_r].
Qed.

Lemma normalizeUrl_trimmed (input : jsstring) : trimmed (normalizeUrl input).
Proof.
  unfold normalizeUrl.
  destruct (trim input) as [|c t] eqn:E; [now split|].
  cbn [truthy negb]. rewrite <- E.
  destruct (startsWith (trim input) (lit "http://")
            || startsWith (trim input) (lit "https://")).
  - apply trim_trimmed.
  - apply trimmed_prepend;
      [discriminate | reflexivity | congruence | apply trim_trimmed].
Qed.

(** C2, as the code has it: an input that is not blank and whose trimmed
    text starts with neither [http://] nor [https://] is mapped to its
    trimmed text behind one [https://]: the result starts with the
    prefix, and what follows the prefix is the trimmed text, which does
    not start with a scheme prefix again. *)
Theorem normalizeUrl_prepends_once (input : jsstring) :
  trim input <> [] ->
  startsWith (trim input) (lit "http://") = false ->
  startsWith (trim input) (lit "https://") = false ->
  normalizeUrl input = lit "https://" ++ trim input
  /\ startsWith (normalizeUrl input) (lit "https://") = true
  /\ (forall rest, normalizeUrl input = lit "https://" ++ rest ->
      rest = trim input
      /\ startsWith rest (lit "https://") = false
      /\ startsWith rest (lit "http://") = false).
Proof.
  intros Hne Hhttp Hhttps.
  assert (E : normalizeUrl input = lit "https://" ++ trim input).
  { unfold normalizeUrl. apply truthy_true in Hne.
    now rewrite Hne, Hhttp, Hhttps. }
  split; [exact E|]. split.
  - rewrite E. apply startsWith_app.
  - intros rest Hrest. rewrite E in Hrest.
    apply app_inv_head in Hrest. subst rest. auto.
Qed.

Lemma normalizeUrl_prepends_once_witness :
  normalizeUrl (lit "  example.com ") = lit "https://example.com".
Proof.
  destruct (normalizeUrl_prepends_once (lit "  example.com ")) as [E _];
    [discriminate | reflexivity | reflexivity | exact E].
Defined.

(** C2 as worded fails on blank input: nothing is prepended to it. *)
Lemma normalizeUrl_blank_not_prefixed :
  startsWith (trim (lit "   ")) (lit "http://") = false
  /\ startsWith (trim (lit "   ")) (lit "https://") = false
  /\ normalizeUrl (lit "   ") = lit ""
  /\ normalizeUrl (lit "   ") <> lit "https://" ++ trim (lit "   ")
  /\ startsWith (normalizeUrl (lit "   ")) (lit "https://") = false.
Proof. repeat split; try reflexivity. discriminate. Qed.

(** C10: normalizeUrl is idempotent. *)
Theorem normalizeUrl_idempotent (s : jsstring) :
  normalizeUrl (normalizeUrl s) = normalizeUrl s.
Proof.
  pose proof (trim_of_trimmed _ (normalizeUrl_trimmed s)) as Ht.
  unfold normalizeUrl at 1. rewrite Ht.
  destruct (normalizeUrl s) as [|c t] eqn:E; [reflexivity|].
  cbn [truthy negb]. rewrite <- E.
  unfold normalizeUrl in *.
  destruct (trim s) as [|c' t'] eqn:Es; [discriminate|].
  cbn [truthy negb] in *.
  destruct (startsWith (c' :: t') (lit "http://")
            || startsWith (c' :: t') (lit "https://")) eqn:Ep.
  - now rewrite Ep.
  - rewrite (startsWith_app (lit "https://") (c' :: t')).
    now rewrite orb_true_r.
Qed.

(** The reason behind C10: a result of normalizeUrl is empty or a trimmed
    string that starts with a scheme prefix. *)
Lemma normalizeUrl_shape (s : jsstring) :
  normalizeUrl s = []
  \/ (trimmed (normalizeUrl s)
      /\ (startsWith (normalizeUrl s) (lit "http://") = true
          \/ startsWith (normalizeUrl s) (lit "https://") = true)).
Proof.
  pose proof (normalizeUrl_trimmed s) as Ht.
  unfold normalizeUrl in *.
  destruct (trim s) as [|c t] eqn:Es; [now left|].
  cbn [truthy negb] in *. right.
  destruct (startsWith (c :: t) (lit "http://")
            || startsWith (c :: t) (lit "https://")) eqn:Ep.
  - split; [exact Ht|]. now apply orb_true_iff in Ep.
  - split; [exact Ht|]. right. apply startsWith_app.
Qed.

Section Validation.

Variable newURL : jsstring -> option URL.

Lemma validateUrl_true_iff (input : jsstring) :
  validateUrl newURL input = true
  <-> exists u, newURL input = Some u
        /\ (protocol u = lit "http:" \/ protocol u = lit "https:").
Proof.
  unfold validateUrl. destruct (newURL input) as [u|].
  - rewrite orb_true_iff, !eqb_eq. split.
    + intros H. now exists u.
    + intros [u' [E H]]. now injection E as ->.
  - split; [discriminate | intros [u [E _]]; discriminate].
Qed.

(** validateUrl taken alone: a candidate that does not parse, or parses
    with a scheme other than http and https, fails validateUrl; and
    handleSubmit, which validates the normalized text of the field,
    reports "Please enter a valid URL" and submits nothing whenever that
    normalized text is such a candidate. *)
Theorem validateUrl_rejects (candidate : jsstring) :
  (forall u, newURL candidate = Some u ->
     protocol u <> lit "http:" /\ protocol u <> lit "https:") ->
  validateUrl newURL candidate = false
  /\ (forall meta st,
        trim (formUrl st) <> [] ->
        normalizeUrl (formUrl st) = candidate ->
        handleSubmit newURL meta st = invalidUrl st).
Proof.
  intros H.
  assert (V : validateUrl newURL candidate = false).
  { destruct (validateUrl newURL candidate) eqn:E; [|reflexivity].
    apply validateUrl_true_iff in E as [u [Eu Hu]].
    destruct (H u Eu). tauto. }
  split; [exact V|].
  intros meta st Hne Hn. unfold handleSubmit.
  apply truthy_true in Hne. rewrite Hne, Hn, V. reflexivity.
Qed.

(** handleSubmit goes past validation exactly when the normalized text
    passes validateUrl. *)
Lemma handleSubmit_submits_iff (meta : Metadata) (st : FormState) :
  (exists data, snd (handleSubmit newURL meta st) = Some data)
  <-> trim (formUrl st) <> []
      /\ validateUrl newURL (normalizeUrl (formUrl st)) = true.
Proof.
  unfold handleSubmit. rewrite <- truthy_true.
  destruct (truthy (trim (formUrl st))); simpl.
  - destruct (validateUrl newURL (normalizeUrl (formUrl st))) eqn:V; simpl.
    + apply validateUrl_true_iff in V as [u [Eu _]]. rewrite Eu. simpl.
      split; [auto | intros _; eauto].
    + split; [intros [d Hd]; discriminate | intros [_ Hd]; discriminate].
  - split; [intros [d Hd]; discriminate | intros [Hd _]; discriminate].
Qed.

End Validation.

Lemma validateUrl_rejects_witness :
  validateUrl WHATWG.newURL (lit "ftp://x") = false.
Proof.
  apply (validateUrl_rejects WHATWG.newURL (lit "ftp://x")).
  intros u E. vm_compute in E. injection E as <-. simpl.
  split; discriminate.
Defined.

(** C3: the form does not do what the claim says.  validateUrl alone
    turns [ftp://x] down, but handleSubmit hands it the normalized text:
    [ftp://x] becomes [https://ftp://x], an https URL with host [ftp],
    which passes validation and is submitted.  Behind normalizeUrl the
    scheme test of validateUrl has nothing left to turn down. *)
Lemma ftp_input_passes_the_form :
  normalizeUrl (lit "ftp://x") = lit "https://ftp://x"
  /\ option_map protocol (WHATWG.newURL (lit "https://ftp://x"))
     = Some (lit "https:")
  /\ validateUrl WHATWG.newURL (normalizeUrl (lit "ftp://x")) = true
  /\ option_map url
       (snd (handleSubmit WHATWG.newURL (mkMetadata None None None)
               (mkForm (lit "ftp://x") (lit "") false)))
     = Some (lit "https://ftp://x").
Proof. repeat split; vm_compute; reflexivity. Qed.

End UrlFormFacts.

(** ** App: the pattern of an image reference *)

Module PatternFacts.

Import App.

Lemma literal_spec (pattern s rest : jsstring) :
  literal pattern s = Some rest
  <-> exists p, s = p ++ rest /\ sameFolded p pattern.
Proof.
  revert s. induction pattern as [|q pattern IH]; intros s; simpl.
  - split.
    + intros E. injection E as ->. now exists [].
    + intros [p [-> Hp]]. destruct p; [reflexivity | discriminate].
  - destruct s as [|c s].
    + split; [discriminate|]. intros [p [E Hp]].
      destruct p; [discriminate Hp | discriminate E].
    + destruct (N.eqb_spec (canonicalize c) (canonicalize q)) as [Hc|Hc].
      * rewrite IH. split.
        -- intros [p [-> Hp]]. exists (c :: p). split; [reflexivity|].
           unfold sameFolded in *. simpl. now rewrite Hc, Hp.
        -- intros [p [E Hp]]. destruct p as [|c' p]; [discriminate Hp|].
           injection E as <- ->. injection Hp as _ Hp. now exists p.
      * split; [discriminate|]. intros [p [E Hp]].
        destruct p as [|c' p]; [discriminate Hp|].
        injection E as <- ->. injection Hp as Hp _. contradiction.
Qed.

Lemma literal_app (a b s : jsstring) :
  literal (a ++ b) s =
  match literal a s with Some rest => literal b rest | None => None end.
Proof.
  revert s. induction a as [|q a IH]; intros s; simpl.
  - now destruct b.
  - destruct s as [|c s]; [reflexivity|].
    now destruct (canonicalize c =? canonicalize q).
Qed.

Lemma matchesLiteral_spec (pattern s : jsstring) :
  matchesLiteral pattern s = true
  <-> exists p rest, s = p ++ rest /\ sameFolded p pattern.
Proof.
  unfold matchesLiteral. destruct (literal pattern s) as [rest|] eqn:E.
  - apply literal_spec in E as [p [-> Hp]]. split; [|reflexivity].
    intros _. now exists p, rest.
  - split; [discriminate|]. intros [p [rest [Hs Hp]]].
    assert (L : literal pattern s = Some rest)
      by (apply literal_spec; now exists p).
    congruence.
Qed.

Lemma dotPlusThen_spec (pattern s : jsstring) :
  dotPlusThen pattern s = true
  <-> exists mid q rest,
        s = mid ++ q ++ rest /\ mid <> []
        /\ Forall (fun c => isLineTerminator c = false) mid
        /\ sameFolded q pattern.
Proof.
  induction s as [|c s IH]; simpl.
  - split; [discriminate|]. intros [mid [q [rest [E [Hne _]]]]].
    destruct mid; [congruence | discriminate].
  - rewrite andb_true_iff, negb_true_iff, orb_true_iff, IH,
      matchesLiteral_spec. split.
    + intros [Hc [[q [rest [-> Hq]]] | [mid [q [rest [-> [_ [Hm Hq]]]]]]]].
      * exists [c], q, rest. repeat split; auto. discriminate.
      * exists (c :: mid), q, rest. repeat split; auto. discriminate.
    + intros [mid [q [rest [E [Hne [Hm Hq]]]]]].
      destruct mid as [|c' mid]; [congruence|].
      injection E as <- ->. inversion Hm as [|? ? Hc Hm']; subst.
      split; [exact Hc|].
      destruct mid as [|c'' mid].
      * left. now exists q, rest.
      * right. exists (c'' :: mid), q, rest. repeat split; auto. discriminate.
Qed.

(** X6: the pattern in words.  looksLikeUrl accepts a string exactly
    when it starts with [data:image/], then at least one character, none
    of them a line terminator, then [;base64,]; or starts with [http://];
    or starts with [https://]; letters in either case. *)
Lemma looksLikeUrl_spec (s : jsstring) :
  looksLikeUrl s = true
  <-> (exists p mid q rest,
         s = p ++ mid ++ q ++ rest
         /\ sameFolded p (lit "data:image/")
         /\ mid <> []
         /\ Forall (fun c => isLineTerminator c = false) mid
         /\ sameFolded q (lit ";base64,"))
      \/ (exists p rest,
            s = p ++ rest
            /\ (sameFolded p (lit "http://") \/ sameFolded p (lit "https://"))).
Proof.
  unfold looksLikeUrl. rewrite orb_true_iff.
  match goal with |- (?a \/ ?b) <-> (?c \/ ?d) =>
    cut ((a <-> c) /\ (b <-> d)); [tauto | split]
  end.
  - destruct (literal (lit "data:image/") s) as [r|] eqn:E.
    + apply literal_spec in E as [p [-> Hp]]. rewrite dotPlusThen_spec.
      split.
      * intros [mid [q [rest [-> H]]]]. now exists p, mid, q, rest.
      * intros [p' [mid [q [rest [E [Hp' H]]]]]].
        assert (p' = p /\ mid ++ q ++ rest = r) as [-> <-].
        { assert (L : List.length p' = List.length p).
          { apply (f_equal (@List.length _)) in Hp, Hp'.
            rewrite !length_map in *. congruence. }
          clear - E L. revert p' E L.
          induction p as [|c p IH]; intros [|c' p'] E L; try discriminate.
          - now split.
          - injection E as <- E. injection L as L.
            destruct (IH p' E L) as [-> ->]. now split. }
        now exists mid, q, rest.
    + split; [discriminate|].
      intros [p [mid [q [rest [Hs [Hp _]]]]]].
      assert (L : literal (lit "data:image/") s = Some (mid ++ q ++ rest))
        by (apply literal_spec; now exists p).
      congruence.
  - assert (E : match literal (lit "http") s with
                | Some rest =>
                    matchesLiteral (lit "s://") rest
                    || matchesLiteral (lit "://") rest
                | None => false
                end
                = matchesLiteral (lit "https://") s
                  || matchesLiteral (lit "http://") s).
    { unfold matchesLiteral.
      change (lit "https://") with (lit "http" ++ lit "s://").
      change (lit "http://") with (lit "http" ++ lit "://").
      rewrite !literal_app. now destruct (literal (lit "http") s). }
    rewrite E, orb_true_iff, !matchesLiteral_spec. split.
    + intros [[p [rest [-> H]]] | [p [rest [-> H]]]]; exists p, rest; auto.
    + intros [p [rest [-> [H|H]]]]; [right|left]; now exists p, rest.
Qed.

End PatternFacts.

(** ** App: the image search *)

Module SearchFacts.

Import App.

Lemma looksLikeUrl_nonempty (s : jsstring) :
  looksLikeUrl s = true -> truthy s = true.
Proof. destruct s; [discriminate | reflexivity]. Qed.

(** Induction on a parsed value, with the hypothesis for every element
    and every property value. *)
Lemma value_induction (P : value -> Prop) :
  P VNull ->
  (forall b, P (VBoolean b)) ->
  (forall x, P (VNumber x)) ->
  (forall s, P (VString s)) ->
  (forall elements, Forall P elements -> P (VArray elements)) ->
  (forall properties,
     Forall (fun kv => P (snd kv)) properties -> P (VObject properties)) ->
  forall v, P v.
Proof.
  intros Hnull Hbool Hnum Hstr Harr Hobj.
  fix IH 1. intros [| b | x | s | elements | properties].
  - exact Hnull.
  - apply Hbool.
  - apply Hnum.
  - apply Hstr.
  - apply Harr. induction elements as [|v vs IHvs]; constructor.
    + apply IH.
    + exact IHvs.
  - apply Hobj. induction properties as [|[k v] ps IHps]; constructor.
    + apply IH.
    + exact IHps.
Qed.

Lemma findImageDeep_array (elements : list value) :
  findImageDeep (VArray elements) = scan elements.
Proof.
  cbn -[looksLikeUrl]. induction elements as [|v vs IH]; [reflexivity|].
  cbn -[looksLikeUrl findImageDeep]. unfold visit. rewrite IH.
  destruct v; try reflexivity.
  - now destruct (looksLikeUrl s).
  - destruct (findImageDeep (VArray elements)) as [found|];
      [now destruct (truthy found) | reflexivity].
  - destruct (findImageDeep (VObject properties)) as [found|];
      [now destruct (truthy found) | reflexivity].
Qed.

Lemma findImageDeep_object (properties : list (jsstring * value)) :
  findImageDeep (VObject properties) =
  match directHit (VObject properties) with
  | Some s => Some s
  | None => scan (map snd properties)
  end.
Proof.
  cbn -[looksLikeUrl directHit].
  destruct (directHit (VObject properties)); [reflexivity|].
  induction properties as [|[k v] ps IH]; [reflexivity|].
  cbn -[looksLikeUrl findImageDeep]. unfold visit. rewrite IH.
  destruct v; try reflexivity.
  - now destruct (looksLikeUrl s).
  - destruct (findImageDeep (VArray elements)) as [found|];
      [now destruct (truthy found) | reflexivity].
  - destruct (findImageDeep (VObject properties)) as [found|];
      [now destruct (truthy found) | reflexivity].
Qed.

Lemma lookup_In (name : jsstring) (properties : list (jsstring * value))
    (v : value) :
  lookup name properties = Some v -> exists key, In (key, v) properties.
Proof.
  induction properties as [|[k x] ps IH]; simpl; [discriminate|].
  destruct (eqb k name).
  - intros E. injection E as ->. exists k. now left.
  - intros E. destruct (IH E) as [key H]. exists key. now right.
Qed.

Lemma coalesce_cases (a b : option value) :
  coalesce a b = a \/ coalesce a b = b.
Proof. destruct a as [[]|]; simpl; auto. Qed.

Lemma direct_child (obj v : value) : direct obj = Some v -> child v obj.
Proof.
  destruct obj as [| | | | |properties]; try discriminate.
  unfold direct. intros H.
  assert (L : exists name, lookup name properties = Some v).
  { unfold get in H.
    repeat match type of H with
           | coalesce ?a ?b = _ =>
               destruct (coalesce_cases a b) as [E|E]; rewrite E in H; clear E;
               [eexists; exact H |]
           end.
    eexists; exact H. }
  destruct L as [name L]. apply lookup_In in L as [key L].
  now apply child_property with key.
Qed.

Lemma directHit_sound (obj : value) (s : jsstring) :
  directHit obj = Some s ->
  direct obj = Some (VString s) /\ looksLikeUrl s = true.
Proof.
  unfold directHit. destruct (direct obj) as [[| | |s'| |]|]; try discriminate.
  destruct (looksLikeUrl s') eqn:E; [|discriminate].
  intros H. now injection H as ->.
Qed.

Lemma scan_Some (vals : list value) (s : jsstring) :
  scan vals = Some s -> exists v, In v vals /\ visit v = Some s.
Proof.
  induction vals as [|v vs IH]; simpl; [discriminate|].
  destruct (visit v) as [s'|] eqn:E.
  - intros H. injection H as ->. exists v. auto.
  - intros H. destruct (IH H) as [v' [Hin Hv]]. exists v'. auto.
Qed.

Lemma scan_None (vals : list value) :
  scan vals = None <-> forall v, In v vals -> visit v = None.
Proof.
  induction vals as [|v vs IH]; simpl.
  - split; [intros _ v [] | reflexivity].
  - destruct (visit v) eqn:E.
    + split; [discriminate|]. intros H. rewrite <- E. apply H. now left.
    + rewrite IH. split.
      * intros H v' [<-|Hin]; auto.
      * intros H v' Hin. apply H. now right.
Qed.

Lemma child_cases (v obj : value) :
  child v obj <->
  match obj with
  | VArray elements => In v elements
  | VObject properties => In v (map snd properties)
  | _ => False
  end.
Proof.
  split.
  - intros [elements v' H | properties key v' H]; [exact H|].
    apply in_map_iff. now exists (key, v').
  - destruct obj; try tauto.
    + apply child_element.
    + intros H. apply in_map_iff in H as [[k v'] [<- H]].
      now apply child_property with k.
Qed.

Lemma findImageDeep_children (obj : value) :
  findImageDeep obj =
  match directHit obj with
  | Some s => Some s
  | None =>
      match obj with
      | VArray elements => scan elements
      | VObject properties => scan (map snd properties)
      | _ => None
      end
  end.
Proof.
  destruct obj;
    try (cbn -[truthyValue]; now rewrite ?orb_true_r).
  - apply findImageDeep_array.
  - apply findImageDeep_object.
Qed.

Lemma findImageDeep_scalar (obj : value) :
  (forall c, ~ child c obj) -> findImageDeep obj = None.
Proof.
  intros H. rewrite findImageDeep_children.
  destruct obj as [| | | |elements|properties]; try reflexivity.
  - destruct elements as [|v vs]; [reflexivity|].
    destruct (H v). apply child_element. now left.
  - destruct properties as [|[k v] ps]; [reflexivity|].
    destruct (H v). apply child_property with k. now left.
Qed.

(** What the search returns is a string held inside the value that
    matches the pattern. *)
Lemma findImageDeep_sound (obj : value) (s : jsstring) :
  findImageDeep obj = Some s -> looksLikeUrl s = true /\ inside s obj.
Proof.
  revert s. induction obj as [|b|x|s0|elements IH|properties IH]
    using value_induction; intros s;
    try (rewrite findImageDeep_scalar;
         [discriminate | intros c Hc; now apply child_cases in Hc]);
    rewrite findImageDeep_children.
  - cbn [directHit direct get coalesce]. intros H.
    apply scan_Some in H as [v [Hin Hv]].
    rewrite Forall_forall in IH. specialize (IH v Hin).
    unfold visit in Hv. destruct v; try discriminate.
    + destruct (looksLikeUrl s0) eqn:E; [|discriminate].
      injection Hv as ->. split; [exact E|].
      now apply inside_here, child_element.
    + destruct (findImageDeep (VArray elements0)) as [f|] eqn:E;
        [|discriminate].
      destruct (truthy f); [|discriminate]. injection Hv as ->.
      destruct (IH s eq_refl) as [Hs Hi]. split; [exact Hs|].
      eapply inside_deeper; [apply child_element; exact Hin | exact Hi].
    + destruct (findImageDeep (VObject properties)) as [f|] eqn:E;
        [|discriminate].
      destruct (truthy f); [|discriminate]. injection Hv as ->.
      destruct (IH s eq_refl) as [Hs Hi]. split; [exact Hs|].
      eapply inside_deeper; [apply child_element; exact Hin | exact Hi].
  - destruct (directHit (VObject properties)) as [d|] eqn:D.
    + intros H. injection H as ->.
      apply directHit_sound in D as [D Hs]. split; [exact Hs|].
      now apply inside_here, direct_child.
    + intros H. apply scan_Some in H as [v [Hin Hv]].
      assert (Hc : child v (VObject properties)) by now apply child_cases.
      apply in_map_iff in Hin as [[k v'] [Ek Hin]]. simpl in Ek. subst v'.
      rewrite Forall_forall in IH. specialize (IH _ Hin). simpl in IH.
      unfold visit in Hv. destruct v; try discriminate.
      * destruct (looksLikeUrl s0) eqn:E; [|discriminate].
        injection Hv as ->. split; [exact E|]. now apply inside_here.
      * destruct (findImageDeep (VArray elements)) as [f|] eqn:E;
          [|discriminate].
        destruct (truthy f); [|discriminate]. injection Hv as ->.
        destruct (IH s eq_refl) as [Hs Hi]. split; [exact Hs|].
        eapply inside_deeper; [exact Hc | exact Hi].
      * destruct (findImageDeep (VObject properties0)) as [f|] eqn:E;
          [|discriminate].
        destruct (truthy f); [|discriminate]. injection Hv as ->.
        destruct (IH s eq_refl) as [Hs Hi]. split; [exact Hs|].
        eapply inside_deeper; [exact Hc | exact Hi].
Qed.

Lemma visit_None (v : value) :
  visit v = None ->
  match v with
  | VString s => looksLikeUrl s = false
  | _ => findImageDeep v = None
  end.
Proof.
  unfold visit. destruct v as [|b|x|s|elements|properties];
    try (intros _; apply findImageDeep_scalar;
         intros c Hc; now apply child_cases in Hc).
  - now destruct (looksLikeUrl s).
  - destruct (findImageDeep (VArray elements)) as [f|] eqn:E; [|reflexivity].
    apply findImageDeep_sound in E as [E _].
    apply looksLikeUrl_nonempty in E. now rewrite E.
  - destruct (findImageDeep (VObject properties)) as [f|] eqn:E;
      [|reflexivity].
    apply findImageDeep_sound in E as [E _].
    apply looksLikeUrl_nonempty in E. now rewrite E.
Qed.

Lemma inside_is_container (s : jsstring) (v : value) :
  inside s v -> exists c, child c v.
Proof. intros [obj H | obj c H _]; eauto. Qed.

(** The search finds nothing only when no string inside the value
    matches the pattern. *)
Lemma findImageDeep_complete (obj : value) :
  findImageDeep obj = None ->
  forall s, inside s obj -> looksLikeUrl s = false.
Proof.
  induction obj as [|b|x|s0|elements IH|properties IH] using value_induction;
    intros Hnone s Hin;
    try (apply inside_is_container in Hin as [c Hc];
         apply child_cases in Hc; now destruct Hc).
  - rewrite findImageDeep_array in Hnone.
    rewrite scan_None in Hnone. rewrite Forall_forall in IH.
    inversion Hin as [obj Hc | obj v Hc Hv]; subst;
      apply child_cases in Hc; simpl in Hc.
    + apply (visit_None _ (Hnone _ Hc)).
    + pose proof (visit_None _ (Hnone _ Hc)) as Hv'.
      apply (IH v Hc); [|exact Hv].
      destruct v; try exact Hv';
        apply inside_is_container in Hv as [c Hc'];
        apply child_cases in Hc'; now destruct Hc'.
  - rewrite findImageDeep_object in Hnone.
    destruct (directHit (VObject properties)); [discriminate|].
    rewrite scan_None in Hnone.
    assert (IH' : forall v, In v (map snd properties) ->
              findImageDeep v = None ->
              forall s, inside s v -> looksLikeUrl s = false).
    { intros v Hv. apply in_map_iff in Hv as [[k v'] [<- Hv]].
      rewrite Forall_forall in IH. apply (IH _ Hv). }
    inversion Hin as [obj Hc | obj v Hc Hv]; subst;
      apply child_cases in Hc; simpl in Hc.
    + apply (visit_None _ (Hnone _ Hc)).
    + pose proof (visit_None _ (Hnone _ Hc)) as Hv'.
      apply (IH' v Hc); [|exact Hv].
      destruct v; try exact Hv';
        apply inside_is_container in Hv as [c Hc'];
        apply child_cases in Hc'; now destruct Hc'.
Qed.

Lemma findImageDeep_None_iff (obj : value) :
  findImageDeep obj = None
  <-> forall s, inside s obj -> looksLikeUrl s = false.
Proof.
  split; [apply findImageDeep_complete|].
  intros H. destruct (findImageDeep obj) as [s|] eqn:E; [|reflexivity].
  apply findImageDeep_sound in E as [Hs Hi].
  rewrite (H s Hi) in Hs. discriminate.
Qed.

(** The first of the six conventional keys that is present and not
    [null] decides the shortcut: when it is a matching string, it is the
    result. *)
Lemma findImageDeep_direct (obj : value) (s : jsstring) :
  direct obj = Some (VString s) -> looksLikeUrl s = true ->
  findImageDeep obj = Some s.
Proof.
  intros D Hs. rewrite findImageDeep_children.
  unfold directHit. now rewrite D, Hs.
Qed.

End SearchFacts.

(** ** App: what postWebhook makes of a response *)

Module InterpreterFacts.

Import App SearchFacts.

Section WithPlatform.

Variable createObjectURL : Blob -> jsstring.

(** C1, as the code has it.  For a response that reaches the JSON branch
    and whose body parses to [data]: the search first looks at the first
    of [image], [imageUrl], [image_url], [thumbnail], [thumb], [url] that
    is present and not null, and returns it when it is a matching string;
    otherwise it runs over the own values in key order, through objects
    and arrays alike, and returns the first matching string or the first
    result of searching a nested value.  What it returns is a matching
    string held inside [data] and becomes the image; it returns nothing
    exactly when no string inside [data] matches, and then the note says
    that no image field was found. *)
Theorem json_image_search (now : N) (res : Response) (data : value)
    (w : World) :
  ok res = true ->
  startsWith (contentType res) (lit "image/") = false ->
  includes (contentType res) (lit "application/json") = true ->
  json res = Some data ->
  let w' := postWebhook createObjectURL now (Some res) w in
  match findImageDeep data with
  | Some found =>
      webhookImage (app w') = Some found /\ webhookNote (app w') = None
      /\ looksLikeUrl found = true /\ inside found data
  | None =>
      webhookImage (app w') = None
      /\ webhookNote (app w') = Some noteNoImage
      /\ (forall s, inside s data -> looksLikeUrl s = false)
  end
  /\ (forall s, direct data = Some (VString s) -> looksLikeUrl s = true ->
      findImageDeep data = Some s)
  /\ findImageDeep data =
     match directHit data with
     | Some s => Some s
     | None =>
         match data with
         | VArray elements => scan elements
         | VObject properties => scan (map snd properties)
         | _ => None
         end
     end
  /\ findImageDeep exampleData = Some (lit "https://x/y.png").
Proof.
  intros Hok Himg Hjson Hdata w'.
  split; [|split; [|split]].
  - subst w'. unfold postWebhook, postWebhookSettle, interpret.
    rewrite Hok, Himg, Hjson, Hdata.
    destruct (findImageDeep data) as [found|] eqn:E.
    + destruct (findImageDeep_sound _ _ E) as [Hs Hi].
      rewrite (looksLikeUrl_nonempty _ Hs). repeat split; auto.
    + repeat split. now apply findImageDeep_complete.
  - apply findImageDeep_direct.
  - apply findImageDeep_children.
  - reflexivity.
Qed.

(** C4: a response whose status is outside 200..299 leaves the error
    note and an error toast, whatever its content type and body; the
    image is not set (it is the one the start of the call cleared). *)
Theorem error_status_gives_webhook_error (now : N) (res : Response)
    (w : World) :
  status res < 200 \/ 299 < status res ->
  let w' := postWebhook createObjectURL now (Some res) w in
  webhookImage (app w') = None
  /\ webhookNote (app w') = Some noteError
  /\ webhookLoading (app w') = false
  /\ toasts (app w') =
     toasts (app w)
     ++ [toastAt now (lit "Webhook responded with an error") error]
  /\ (forall w0 : World,
        let w1 := postWebhookSettle createObjectURL now (Some res) w0 in
        webhookImage (app w1) = webhookImage (app w0)
        /\ webhookNote (app w1) = Some noteError).
Proof.
  intros Hstatus w'.
  assert (Hok : ok res = false).
  { unfold ok. destruct Hstatus as [H|H].
    - apply N.leb_gt in H. now rewrite H.
    - apply N.leb_gt in H. rewrite H. apply andb_false_r. }
  subst w'. unfold postWebhook, postWebhookSettle, interpret.
  rewrite Hok. repeat split.
Qed.

(** C5, as the code has it: a response in the JSON branch (a content
    type that does not start with [image/] and contains
    [application/json], as the code tests it) whose body does not parse
    is not sent to the [catch] block: it leaves the note that no image field
    was found, with the success toast. *)
Theorem malformed_json_gives_note (now : N) (res : Response) (w : World) :
  ok res = true ->
  startsWith (contentType res) (lit "image/") = false ->
  includes (contentType res) (lit "application/json") = true ->
  json res = None ->
  let w' := postWebhook createObjectURL now (Some res) w in
  webhookImage (app w') = None
  /\ webhookNote (app w') = Some noteNoImage
  /\ webhookNote (app w') <> Some noteCors
  /\ webhookLoading (app w') = false
  /\ toasts (app w') =
     toasts (app w) ++ [toastAt now (lit "URL sent successfully") success].
Proof.
  intros Hok Himg Hjson Hdata w'.
  subst w'. unfold postWebhook, postWebhookSettle, interpret.
  rewrite Hok, Himg, Hjson, Hdata. repeat split. discriminate.
Qed.

(** C6, as the code has it: a response in neither the image nor the
    JSON branch (a content type that does not start with [image/] and
    does not contain [application/json], as the code tests it), read as
    text: a body whose trimmed text matches the pattern becomes the
    image, trimmed; an empty body leaves the note that there was no
    body; any other body leaves the note that no image field was
    found. *)
Theorem text_response_interpreted (now : N) (res : Response)
    (body : jsstring) (w : World) :
  ok res = true ->
  startsWith (contentType res) (lit "image/") = false ->
  includes (contentType res) (lit "application/json") = false ->
  text res = Some body ->
  let w' := postWebhook createObjectURL now (Some res) w in
  (looksLikeUrl (trim body) = true ->
     webhookImage (app w') = Some (trim body)
     /\ webhookNote (app w') = None)
  /\ (body = [] ->
     webhookImage (app w') = None
     /\ webhookNote (app w') = Some noteNoBody)
  /\ (body <> [] -> looksLikeUrl (trim body) = false ->
     webhookImage (app w') = None
     /\ webhookNote (app w') = Some noteNoImage).
Proof.
  intros Hok Himg Hjson Htext w'.
  subst w'. unfold postWebhook, postWebhookSettle, interpret.
  rewrite Hok, Himg, Hjson, Htext.
  split; [|split].
  - intros Hm. rewrite Hm.
    destruct body as [|c body]; [discriminate|]. now split.
  - intros ->. now split.
  - intros Hne Hm. rewrite Hm, andb_false_r.
    destruct body as [|c body]; [congruence|]. now split.
Qed.

End WithPlatform.

Lemma json_image_search_witness :
  webhookImage
    (app (postWebhook noBlobUrl 0 (Some (jsonResponse exampleData)) initial))
  = Some (lit "https://x/y.png").
Proof.
  pose proof (json_image_search noBlobUrl 0 (jsonResponse exampleData)
                exampleData initial eq_refl eq_refl eq_refl eq_refl) as H.
  cbv zeta in H. destruct H as [H _].
  change (findImageDeep exampleData) with (Some (lit "https://x/y.png")) in H.
  exact (proj1 H).
Defined.

(** C1 as worded fails twice.  Arrays are searched: a matching string
    that sits only in an array becomes the image.  And the six keys are
    not tried one after the other: when the first of them that is
    present holds no match, a string found deeper, under an earlier key,
    wins over a matching [url] of the same object. *)
Lemma array_and_key_order_counterexample :
  findImageDeep arrayData = Some (lit "https://x/y.png")
  /\ webhookImage
       (app (postWebhook noBlobUrl 0 (Some (jsonResponse arrayData)) initial))
     = Some (lit "https://x/y.png")
  /\ get shadowedData (lit "url") = Some (VString (lit "https://x/top.png"))
  /\ looksLikeUrl (lit "https://x/top.png") = true
  /\ findImageDeep shadowedData = Some (lit "https://x/deep.png").
Proof. repeat split. Qed.

Lemma error_status_gives_webhook_error_witness :
  webhookNote
    (app (postWebhook noBlobUrl 0
            (Some (mkResponse 500 (Some (lit "image/png")) (Some [])
                     (Some exampleData) (Some (lit "https://x/y.png"))))
            initial))
  = Some noteError.
Proof.
  refine (proj1 (proj2 (error_status_gives_webhook_error noBlobUrl 0
            (mkResponse 500 (Some (lit "image/png")) (Some [])
               (Some exampleData) (Some (lit "https://x/y.png")))
            initial _))).
  right. reflexivity.
Defined.

Lemma malformed_json_gives_note_witness :
  webhookNote
    (app (postWebhook noBlobUrl 0
            (Some (mkResponse 200 (Some (lit "application/json; charset=utf-8"))
                     None None None))
            initial))
  = Some noteNoImage.
Proof.
  exact (proj1 (proj2 (malformed_json_gives_note noBlobUrl 0
           (mkResponse 200 (Some (lit "application/json; charset=utf-8"))
              None None None)
           initial eq_refl eq_refl eq_refl eq_refl))).
Defined.

Lemma text_response_interpreted_witness :
  webhookImage
    (app (postWebhook noBlobUrl 0
            (Some (mkResponse 200 (Some (lit "text/plain")) None None
                     (Some (lit " https://x/y.png "))))
            initial))
  = Some (lit "https://x/y.png").
Proof.
  exact (proj1 (proj1 (text_response_interpreted noBlobUrl 0
           (mkResponse 200 (Some (lit "text/plain")) None None
              (Some (lit " https://x/y.png ")))
           (lit " https://x/y.png ") initial
           eq_refl eq_refl eq_refl eq_refl) eq_refl)).
Defined.

End InterpreterFacts.

(** ** App: the name of a downloaded image *)

Module DownloadFacts.

Import App.

Section WithPlatform.

Variable createObjectURL : Blob -> jsstring.
Variable newURL : jsstring -> option URL.

Lemma last_segment (dir segment : jsstring) :
  ~ In 47 segment ->
  pop (split 47 (dir ++ 47 :: segment)) = Some segment
  /\ pop (split 47 segment) = Some segment.
Proof.
  intros H. rewrite split_app, (split_plain 47 segment H).
  split; [|reflexivity]. now rewrite pop_app.
Qed.

Lemma not_local_not_data (src : jsstring) :
  isLocalReference src = false ->
  startsWith src (lit "data:image/") = false.
Proof.
  unfold isLocalReference. intros H.
  apply orb_false_iff in H as [_ H].
  destruct (startsWith src (lit "data:image/")) eqn:E; [|reflexivity].
  apply startsWith_iff in E as [rest ->].
  change (lit "data:image/" ++ rest)
    with (lit "data:" ++ lit "image/" ++ rest) in H.
  now rewrite startsWith_app in H.
Qed.

(** C7, as the code has it.  For a reference that starts with neither
    [blob:] nor [data:]: when it does not parse as a URL the name is
    [preview.png]; otherwise, with [segment] the text after the last
    slash of the path, the name is [segment] when it contains a dot,
    [preview.png] when it is empty, and [segment] followed by [.png]
    when it is not empty and has no dot. *)
Theorem getFilename_remote (src : jsstring) :
  isLocalReference src = false ->
  (newURL src = None -> getFilename newURL src = lit "preview.png")
  /\ (forall u dir segment,
        newURL src = Some u ->
        pathname u = dir ++ 47 :: segment \/ pathname u = segment ->
        ~ In 47 segment ->
        getFilename newURL src =
        if includes segment (lit ".") then segment
        else if truthy segment then segment ++ lit ".png"
        else lit "preview.png").
Proof.
  intros Hremote. apply not_local_not_data in Hremote.
  unfold getFilename. rewrite Hremote. split.
  - now intros ->.
  - intros u dir segment -> Hpath Hseg.
    destruct (last_segment dir segment Hseg) as [L1 L2].
    assert (L : pop (split 47 (pathname u)) = Some segment)
      by (destruct Hpath as [-> | ->]; assumption).
    rewrite L. destruct segment as [|c segment]; reflexivity.
Qed.

(** The name reaches [triggerDownload] unchanged, for a remote image
    whose fetch succeeded. *)
Lemma downloadSettle_filename (now : N) (src : jsstring) (b : Blob)
    (w : World) :
  option_map filename
    (snd (downloadSettle createObjectURL newURL now src (Some b) w))
  = Some (getFilename newURL src).
Proof. reflexivity. Qed.

End WithPlatform.

Lemma getFilename_remote_witness :
  getFilename WHATWG.newURL (lit "https://x/a/b.jpg") = lit "b.jpg".
Proof.
  refine (proj2 (getFilename_remote WHATWG.newURL (lit "https://x/a/b.jpg")
                   eq_refl)
            (mkURL (lit "https:") (lit "x") (lit "https://x") (lit "/a/b.jpg"))
            (lit "/a") (lit "b.jpg") eq_refl (or_introl eq_refl) _).
  vm_compute. intuition discriminate.
Defined.

(** C7 as worded fails: a last segment without an extension is kept and
    given the extension [.png]; it is not replaced by [preview.png]. *)
Lemma segment_without_extension_is_kept :
  isLocalReference (lit "https://x/photo") = false
  /\ option_map pathname (WHATWG.newURL (lit "https://x/photo"))
     = Some (lit "/photo")
  /\ includes (lit "photo") (lit ".") = false
  /\ getFilename WHATWG.newURL (lit "https://x/photo") = lit "photo.png"
  /\ getFilename WHATWG.newURL (lit "https://x/photo") <> lit "preview.png".
Proof. repeat split. vm_compute. discriminate. Qed.

End DownloadFacts.

(** ** App: toasts and results over time *)

Module WorldFacts.

Import App InterpreterFacts.

Lemma keepOthers_In (i : jsstring) (ts : list ToastMessage)
    (toast : ToastMessage) :
  In toast (keepOthers i ts) <-> In toast ts /\ id toast <> i.
Proof.
  unfold keepOthers. rewrite filter_In, negb_true_iff, eqb_neq. tauto.
Qed.

Lemma expired_fold (fired : list Timer) (w : World) :
  let w' := fold_left (fun w0 t => expire t w0) fired w in
  (forall toast,
     In toast (toasts (app w')) <->
     In toast (toasts (app w))
     /\ forall t, In t fired -> target t <> id toast)
  /\ timers w' = timers w
  /\ sameResult w w'.
Proof.
  revert w. induction fired as [|t fired IH]; intros w; cbn zeta.
  - simpl. split; [|now repeat split].
    intros toast. split; [intros H; split; [exact H | intros t []] | tauto].
  - simpl. specialize (IH (expire t w)). cbn zeta in IH.
    destruct IH as [IHin [IHt [IH1 [IH2 [IH3 IH4]]]]].
    split; [|split; [exact IHt | now repeat split]].
    intros toast. rewrite IHin. cbn [expire withApp app setToasts toasts].
    rewrite keepOthers_In. split.
    + intros [[Hin Hne] Hall]. split; [exact Hin|].
      intros t' [<-|Ht']; [congruence | now apply Hall].
    + intros [Hin Hall]. split; [split; [exact Hin|] |].
      * intros E. apply (Hall t); [now left | congruence].
      * intros t' Ht'. apply Hall. now right.
Qed.

Lemma elapse_spec (now : N) (w : World) :
  (forall toast,
     In toast (toasts (app (elapse now w))) <->
     In toast (toasts (app w))
     /\ forall t, In t (timers w) -> due t <= now -> target t <> id toast)
  /\ (forall t, In t (timers (elapse now w)) <->
                In t (timers w) /\ now < due t)
  /\ sameResult w (elapse now w).
Proof.
  unfold elapse.
  destruct (expired_fold (filter (fun t => due t <=? now) (timers w))
              (mkWorld (app w)
                 (filter (fun t => negb (due t <=? now)) (timers w))
                 (pending w) (downloads w))) as [Hin [Ht Hr]].
  cbn zeta in *. split; [|split].
  - intros toast. rewrite Hin. cbn [app].
    split; intros [H1 H2]; (split; [exact H1|]).
    + intros t Ht' Hdue. apply H2. apply filter_In.
      split; [exact Ht' | now apply N.leb_le].
    + intros t Ht'. apply filter_In in Ht' as [Ht' Hdue].
      apply H2; [exact Ht' | now apply N.leb_le].
  - intros t. rewrite Ht. cbn [timers].
    rewrite filter_In, negb_true_iff, N.leb_gt. tauto.
  - exact Hr.
Qed.

Lemma covered_elapse (i : jsstring) (limit now : N) (w : World) :
  covered i limit w -> covered i limit (elapse now w).
Proof.
  intros C toast Hin Hid.
  destruct (elapse_spec now w) as [Htoasts [Htimers _]].
  apply Htoasts in Hin as [Hin Hfired].
  destruct (C toast Hin Hid) as [t [Ht [Htarget Hdue]]].
  exists t. split; [|now split].
  apply Htimers. split; [exact Ht|].
  destruct (N.lt_ge_cases now (due t)) as [Hlt|Hge]; [exact Hlt|].
  destruct (Hfired t Ht Hge). congruence.
Qed.

Lemma covered_same (i : jsstring) (limit : N) (w w' : World) :
  sameToasts w w' -> covered i limit w -> covered i limit w'.
Proof.
  intros [Ht Hm] C toast Hin Hid. rewrite Ht in Hin. rewrite Hm.
  exact (C toast Hin Hid).
Qed.

Lemma covered_removeToast (i j : jsstring) (limit : N) (w : World) :
  covered i limit w -> covered i limit (removeToast j w).
Proof.
  intros C toast Hin Hid.
  cbn [removeToast withApp app setToasts toasts] in Hin.
  apply keepOthers_In in Hin as [Hin _]. exact (C toast Hin Hid).
Qed.

Lemma covered_oneToast (T now : N) (w w' : World) :
  oneToast now w w' ->
  covered (toString T) (T + 3000) w -> covered (toString T) (T + 3000) w'.
Proof.
  intros [message [type [Ht Hm]]] C toast Hin Hid.
  rewrite Ht in Hin. rewrite Hm. apply in_app_or in Hin as [Hin|[<-|[]]].
  - destruct (C toast Hin Hid) as [t [Hin' H]].
    exists t. split; [apply in_or_app; now left | exact H].
  - simpl in Hid. apply toString_inj in Hid. subst now.
    exists (mkTimer (T + 3000) (toString T)).
    split; [apply in_or_app; right; now left |].
    split; [reflexivity | apply N.le_refl].
Qed.

Lemma addToast_oneToast (now : N) (message : jsstring) (type : ToastType)
    (w : World) :
  oneToast now w (addToast now message type w).
Proof. exists message, type. now split. Qed.

Section WithPlatform.

Variable createObjectURL : Blob -> jsstring.
Variable newURL : jsstring -> option URL.

(** Every branch of postWebhook after the response calls addToast once,
    and fills one of the two result slots, leaving the other alone. *)
Lemma interpret_effect (now : N) (fetched : option Response) (w : World) :
  let w' := interpret createObjectURL now fetched w in
  oneToast now w w'
  /\ pending w' = pending w
  /\ ((exists src, webhookImage (app w') = Some src)
      /\ webhookNote (app w') = webhookNote (app w)
      \/ webhookImage (app w') = webhookImage (app w)
         /\ exists note, webhookNote (app w') = Some note).
Proof.
  cbn zeta. unfold interpret.
  repeat match goal with
         | |- context [match ?x with _ => _ end] => destruct x
         end;
    (split; [eexists; eexists; split; reflexivity |
             split; [reflexivity |]]);
    cbn; eauto.
Qed.

Lemma handle_covered (T now : N) (e : event) (w w' : World) :
  handle createObjectURL newURL now e w = Some w' ->
  covered (toString T) (T + 3000) w -> covered (toString T) (T + 3000) w'.
Proof.
  intros H C. apply (covered_elapse _ _ now) in C.
  unfold handle in H. set (w0 := elapse now w) in *. clearbody w0.
  destruct e as [urlData|fetched|toastId| |k body].
  - injection H as <-. revert C. apply covered_same. now split.
  - destruct (pending w0) as [|n] eqn:E; [discriminate|].
    injection H as <-.
    destruct (interpret_effect now fetched
                (mkWorld (app w0) (timers w0) n (downloads w0)))
      as [[m [ty [Ht Hm]]] _].
    revert C. apply covered_oneToast with now.
    exists m, ty. split; [exact Ht | exact Hm].
  - injection H as <-. now apply covered_removeToast.
  - injection H as <-. unfold handleDownloadImage.
    destruct (webhookImage (app w0)) as [src|]; [|exact C].
    destruct (truthy src); [|exact C]. cbn [negb].
    destruct (isLocalReference src); cbn [fst].
    + revert C. apply covered_oneToast with now. apply addToast_oneToast.
    + revert C. apply covered_same. now split.
  - destruct (nth_error (downloads w0) k) as [src|]; [|discriminate].
    injection H as <-.
    destruct body as [b|]; cbn [downloadSettle fst];
      (eapply covered_oneToast;
       [apply addToast_oneToast | revert C; apply covered_same; now split]).
Qed.

Lemma run_covered (T : N) (trace : list (N * event)) (w w' : World) :
  run createObjectURL newURL trace w = Some w' ->
  covered (toString T) (T + 3000) w -> covered (toString T) (T + 3000) w'.
Proof.
  revert w. induction trace as [|[now e] rest IH]; intros w; simpl.
  - intros H. now injection H as <-.
  - destruct (handle createObjectURL newURL now e w) as [w1|] eqn:E;
      [|discriminate].
    intros H C. apply (IH w1 H). now apply handle_covered with now e w.
Qed.

(** C8: a toast added at time [T] (milliseconds) is in the queue right
    after addToast, and whatever happens next (submissions, responses,
    dismissals, downloads, at any times) the queue seen at a time [t]
    with [T + 3000 <= t], so at [T + 3100], holds no toast with its id:
    the timer set by addToast has removed it, if a dismissal has not
    done so before. *)
Theorem toast_gone_after_timeout (T t : N) (message : jsstring)
    (type : ToastType) (trace : list (N * event)) (w w' : World) :
  run createObjectURL newURL trace (addToast T message type w) = Some w' ->
  T + 3000 <= t ->
  In (toastAt T message type) (toasts (app (addToast T message type w)))
  /\ forall toast,
       In toast (toasts (app (elapse t w'))) -> id toast <> toString T.
Proof.
  intros Hrun Ht. split.
  - cbn. apply in_or_app. right. now left.
  - intros toast Hin Hid.
    assert (C : covered (toString T) (T + 3000) w').
    { apply (run_covered T trace _ _ Hrun).
      intros toast' _ _. exists (mkTimer (T + 3000) (toString T)).
      split; [cbn; apply in_or_app; right; now left |].
      split; [reflexivity | apply N.le_refl]. }
    destruct (elapse_spec t w') as [Htoasts _].
    apply Htoasts in Hin as [Hin Hfired].
    destruct (C toast Hin Hid) as [tm [Htm [Htarget Hdue]]].
    apply (Hfired tm Htm); [lia | congruence].
Qed.

(** *** One result at a time *)

Lemma oneResult_same (w w' : World) :
  sameResult w w' -> oneResult w -> oneResult w'.
Proof.
  intros [Hi [Hn [Hl Hp]]]. unfold oneResult.
  now rewrite Hi, Hn, Hl, Hp.
Qed.

Lemma submit_clears (now : N) (urlData : UrlData) (w w' : World) :
  handle createObjectURL newURL now (Submit urlData) w = Some w' ->
  webhookImage (app w') = None /\ webhookNote (app w') = None
  /\ webhookLoading (app w') = true
  /\ pending w' = S (pending w).
Proof.
  intros H. injection H as <-. repeat split.
  cbn. now destruct (elapse_spec now w) as [_ [_ [_ [_ [_ ->]]]]].
Qed.

Lemma handle_oneResult (now : N) (e : event) (w w' : World) :
  match e with Submit _ => pending w = 0%nat | _ => True end ->
  handle createObjectURL newURL now e w = Some w' ->
  oneResult w -> oneResult w'.
Proof.
  intros Hseq H Inv.
  destruct e as [urlData|fetched|toastId| |k body].
  - destruct (submit_clears _ _ _ _ H) as [Hi [Hn [Hl Hp]]].
    unfold oneResult. rewrite Hi, Hn, Hl, Hp, Hseq. auto.
  - destruct (elapse_spec now w) as [_ [_ Hsame]].
    apply (oneResult_same _ _ Hsame) in Inv.
    unfold handle in H. set (w0 := elapse now w) in *. clearbody w0.
    destruct (pending w0) as [|n] eqn:E; [discriminate|].
    injection H as <-.
    destruct Inv as [Hle [_ Hclear]]. rewrite E in Hle, Hclear.
    assert (n = 0)%nat by lia. subst n.
    destruct (Hclear eq_refl) as [Hi [Hn _]].
    destruct (interpret_effect now fetched
                (mkWorld (app w0) (timers w0) 0%nat (downloads w0)))
      as [_ [Hp Hslot]].
    cbn zeta in Hp, Hslot. cbn [app pending] in Hp, Hslot.
    unfold oneResult, postWebhookSettle.
    cbn [withApp app pending setWebhookLoading webhookImage webhookNote
         webhookLoading].
    rewrite Hp. split; [lia|]. split; [|discriminate].
    destruct Hslot as [[_ ->] | [-> _]]; auto.
  - destruct (elapse_spec now w) as [_ [_ Hsame]].
    apply (oneResult_same _ _ Hsame) in Inv.
    injection H as <-. revert Inv. apply oneResult_same. now repeat split.
  - destruct (elapse_spec now w) as [_ [_ Hsame]].
    apply (oneResult_same _ _ Hsame) in Inv.
    injection H as <-. revert Inv. apply oneResult_same.
    unfold handleDownloadImage.
    destruct (webhookImage (app (elapse now w))) as [src|];
      [|now repeat split].
    destruct (truthy src); [|now repeat split]. cbn [negb].
    destruct (isLocalReference src); now repeat split.
  - destruct (elapse_spec now w) as [_ [_ Hsame]].
    apply (oneResult_same _ _ Hsame) in Inv.
    unfold handle in H. set (w0 := elapse now w) in *. clearbody w0.
    destruct (nth_error (downloads w0) k) as [src|]; [|discriminate].
    injection H as <-. revert Inv. apply oneResult_same.
    destruct body; now repeat split.
Qed.

Lemma run_oneResult (trace : list (N * event)) (w w' : World) :
  sequential createObjectURL newURL trace w = true ->
  run createObjectURL newURL trace w = Some w' ->
  oneResult w -> oneResult w'.
Proof.
  revert w. induction trace as [|[now e] rest IH]; intros w; simpl.
  - intros _ H. now injection H as <-.
  - destruct (handle createObjectURL newURL now e w) as [w1|] eqn:E;
      [|discriminate].
    intros Hseq H Inv. apply andb_true_iff in Hseq as [Hs Hrest].
    apply (IH w1 Hrest H). apply (handle_oneResult now e w w1); auto.
    destruct e; auto. now apply Nat.eqb_eq.
Qed.

(** C9, as the code has it.  Every submission, whatever the state it
    finds, clears the image and the note and sets the loading flag
    before its response is looked at.  In a run from the initial state
    in which no submission is made while an earlier one still waits for
    its response, the two result slots never hold more than one result,
    and hold none while a response is awaited. *)
Theorem one_result_without_overlap (trace : list (N * event)) (w : World) :
  sequential createObjectURL newURL trace initial = true ->
  run createObjectURL newURL trace initial = Some w ->
  (webhookImage (app w) = None \/ webhookNote (app w) = None)
  /\ (pending w = 1%nat ->
      webhookImage (app w) = None /\ webhookNote (app w) = None
      /\ webhookLoading (app w) = true)
  /\ (forall now urlData w0 w1,
        handle createObjectURL newURL now (Submit urlData) w0 = Some w1 ->
        webhookImage (app w1) = None /\ webhookNote (app w1) = None
        /\ webhookLoading (app w1) = true).
Proof.
  intros Hseq Hrun.
  assert (Inv : oneResult w).
  { apply (run_oneResult trace initial w Hseq Hrun).
    unfold oneResult. cbn. repeat split; auto; discriminate. }
  destruct Inv as [_ [H1 H2]]. split; [exact H1|]. split; [exact H2|].
  intros now urlData w0 w1 H.
  destruct (submit_clears _ _ _ _ H) as [Hi [Hn [Hl _]]]. auto.
Qed.

End WithPlatform.

End WorldFacts.

(** ** The definitions on a few inputs *)

Module Examples.

Import App.

Example trim_strips_both_ends :
  trim ([160; 9] ++ lit "a b" ++ [10; 65279]) = lit "a b".
Proof. reflexivity. Qed.

Example split_keeps_empty_pieces :
  split 47 (lit "/a//b/") = [lit ""; lit "a"; lit ""; lit "b"; lit ""].
Proof. reflexivity. Qed.

Example toString_of_a_timestamp :
  toString 1730000000123 = lit "1730000000123".
Proof. reflexivity. Qed.

Example pattern_accepts :
  map looksLikeUrl
    [lit "data:image/png;base64,AAAA"; lit "DATA:IMAGE/x;BASE64,";
     lit "http://"; lit "HTTPS://x/y.png"]
  = [true; true; true; true].
Proof. reflexivity. Qed.

Example pattern_rejects :
  map looksLikeUrl
    [lit ""; lit "data:image/;base64,"; lit "data:image/png;base64";
     lit "data:text/plain;base64,AAAA"; lit "httpss://x"; lit "ftp://x";
     lit " https://x"; lit "data:image/" ++ [10] ++ lit ";base64,"]
  = [false; false; false; false; false; false; false; false].
Proof. reflexivity. Qed.

Example newURL_reads_an_address :
  WHATWG.newURL (lit " https://Example.com:8080/a/b/../c.png?x=1#f ")
  = Some (mkURL (lit "https:") (lit "example.com")
            (lit "https://example.com:8080") (lit "/a/c.png")).
Proof. reflexivity. Qed.

Example newURL_default_port_and_empty_path :
  WHATWG.newURL (lit "HTTP://example.com:80")
  = Some (mkURL (lit "http:") (lit "example.com")
            (lit "http://example.com") (lit "/")).
Proof. reflexivity. Qed.

Example newURL_needs_a_scheme :
  WHATWG.parse (lit "example.com") = WHATWG.Failure
  /\ WHATWG.parse (lit "https://") = WHATWG.Failure
  /\ WHATWG.parse (lit "https://x:70000") = WHATWG.Failure.
Proof. repeat split. Qed.

Example newURL_leaves_the_rest_aside :
  WHATWG.parse (lit "https://1.2.3.4/") = WHATWG.Outside
  /\ WHATWG.parse (lit "https://user@x/") = WHATWG.Outside
  /\ WHATWG.parse (lit "mailto:a") = WHATWG.Outside.
Proof. repeat split. Qed.

Example search_of_a_plain_object :
  findImageDeep (VObject [(lit "status", VString (lit "ok"))]) = None.
Proof. reflexivity. Qed.

Example filenames :
  map (getFilename WHATWG.newURL)
    [lit "https://x/a/b.jpg"; lit "https://x/photo"; lit "https://x/";
     lit "https://x"; lit "not a url"]
  = [lit "b.jpg"; lit "photo.png"; lit "preview.png"; lit "preview.png";
     lit "preview.png"].
Proof. reflexivity. Qed.

End Examples.

(** ** Runs used as evidence *)

Module RunFacts.

Import App WorldFacts.

Lemma toast_gone_after_timeout_witness :
  In (toastAt 1000 (lit "Download started") success)
     (toasts (app (addToast 1000 (lit "Download started") success initial)))
  /\ existsb (fun toast => eqb (id toast) (toString 1000))
       (toasts (app (elapse 4100
          (match run noBlobUrl WHATWG.newURL answeredTrace
                   (addToast 1000 (lit "Download started") success initial)
           with Some w => w | None => initial end))))
     = false.
Proof.
  destruct (toast_gone_after_timeout noBlobUrl WHATWG.newURL 1000 4100
              (lit "Download started") success answeredTrace initial
              (match run noBlobUrl WHATWG.newURL answeredTrace
                       (addToast 1000 (lit "Download started") success initial)
               with Some w => w | None => initial end)
              eq_refl) as [H1 H2].
  - discriminate.
  - split; [exact H1|].
    match goal with |- ?b = false => destruct b eqn:E end; [|reflexivity].
    apply existsb_exists in E as [toast [Hin Hid]].
    apply eqb_eq in Hid. destruct (H2 toast Hin Hid).
Defined.

Lemma one_result_without_overlap_witness :
  webhookImage (app (after answeredTrace)) = None
  \/ webhookNote (app (after answeredTrace)) = None.
Proof.
  exact (proj1 (one_result_without_overlap noBlobUrl WHATWG.newURL
                  answeredTrace (after answeredTrace) eq_refl eq_refl)).
Defined.

(** C9 as worded fails: when a second submission is made before the
    first is answered, the first answer fills the image slot and the
    second the note slot; both stay, and the image of the first
    submission is what is shown. *)
Lemma overlapping_submissions_leave_two_results :
  sequential noBlobUrl WHATWG.newURL overlappingTrace initial = false
  /\ option_map (fun w => (webhookImage (app w), webhookNote (app w)))
       (run noBlobUrl WHATWG.newURL overlappingTrace initial)
     = Some (Some (lit "https://x/y.png"), Some noteNoImage)
  /\ render (app (after overlappingTrace)) = Image (lit "https://x/y.png").
Proof. repeat split. Qed.

End RunFacts.

(** ** UrlForm: the handlers together *)

Module FormFacts.

Import UrlForm UrlFormFacts.

Lemma normalizeUrl_blank_iff (s : jsstring) :
  normalizeUrl s = [] <-> trim s = [].
Proof.
  split; [|apply normalizeUrl_blank].
  unfold normalizeUrl. destruct (trim s) as [|c t]; [reflexivity|].
  cbn [truthy negb].
  destruct (startsWith (c :: t) (lit "http://")
            || startsWith (c :: t) (lit "https://")); discriminate.
Qed.

Lemma normalizeUrl_fixes (s : jsstring) :
  s = []
  \/ (trimmed s
      /\ (startsWith s (lit "http://") = true
          \/ startsWith s (lit "https://") = true)) ->
  normalizeUrl s = s.
Proof.
  intros [-> | [Ht Hp]]; [reflexivity|].
  rewrite normalizeUrl_with_scheme; rewrite (trim_of_trimmed _ Ht); auto.
Qed.

Lemma normalizeUrl_result_fixed (s : jsstring) :
  normalizeUrl (normalizeUrl s) = normalizeUrl s
  /\ trim (normalizeUrl s) = normalizeUrl s.
Proof.
  split.
  - apply normalizeUrl_fixes, normalizeUrl_shape.
  - apply trim_of_trimmed, normalizeUrl_trimmed.
Qed.

Lemma handleBlur_cases (st : FormState) :
  handleBlur st = st
  /\ (formUrl st = []
      \/ startsWith (formUrl st) (lit "http://") = true
      \/ startsWith (formUrl st) (lit "https://") = true)
  \/ handleBlur st = mkForm (normalizeUrl (formUrl st)) (error st) (isLoading st).
Proof.
  unfold handleBlur.
  destruct (formUrl st) as [|c u] eqn:E; [left; auto|].
  cbn [truthy andb].
  destruct (startsWith (c :: u) (lit "http://")); [left; auto|].
  destruct (startsWith (c :: u) (lit "https://")); [left; auto|].
  now right.
Qed.

(** X1: after handleBlur the field is empty or starts with [http://] or
    [https://]; a second blur changes nothing; the error message and the
    loading flag are left alone. *)
Theorem handleBlur_settles (st : FormState) :
  (formUrl (handleBlur st) = []
   \/ startsWith (formUrl (handleBlur st)) (lit "http://") = true
   \/ startsWith (formUrl (handleBlur st)) (lit "https://") = true)
  /\ handleBlur (handleBlur st) = handleBlur st
  /\ error (handleBlur st) = error st
  /\ isLoading (handleBlur st) = isLoading st.
Proof.
  destruct (handleBlur_cases st) as [[E H] | E]; rewrite E.
  - rewrite E. auto.
  - cbn [formUrl error isLoading].
    assert (S : normalizeUrl (formUrl st) = []
                \/ startsWith (normalizeUrl (formUrl st)) (lit "http://") = true
                \/ startsWith (normalizeUrl (formUrl st)) (lit "https://") = true).
    { destruct (normalizeUrl_shape (formUrl st)) as [H | [_ H]]; tauto. }
    split; [exact S|]. split; [|auto].
    destruct (handleBlur_cases
                (mkForm (normalizeUrl (formUrl st)) (error st) (isLoading st)))
      as [[E' _] | E']; [exact E'|].
    rewrite E'. cbn [formUrl error isLoading].
    now rewrite (proj1 (normalizeUrl_result_fixed (formUrl st))).
Qed.

Section WithPlatform.

Variable newURL : jsstring -> option URL.

(** X2: leaving the field before submitting makes no difference to the
    submission: handleSubmit passes on the same data, or shows the same
    error, with or without a handleBlur before it. *)
Theorem blur_does_not_change_submit (meta : Metadata) (st : FormState) :
  snd (handleSubmit newURL meta (handleBlur st))
  = snd (handleSubmit newURL meta st)
  /\ error (fst (handleSubmit newURL meta (handleBlur st)))
     = error (fst (handleSubmit newURL meta st)).
Proof.
  destruct (handleBlur_cases st) as [[E _] | E]; rewrite E; [auto|].
  destruct (normalizeUrl_result_fixed (formUrl st)) as [Hn Ht].
  unfold handleSubmit, invalidUrl. cbn [formUrl error isLoading].
  rewrite Hn, Ht.
  destruct (trim (formUrl st)) as [|c t] eqn:Et.
  - now rewrite (normalizeUrl_blank _ Et).
  - assert (Hne : normalizeUrl (formUrl st) <> []).
    { intros H. apply normalizeUrl_blank_iff in H. congruence. }
    apply truthy_true in Hne. rewrite Hne. cbn [truthy negb].
    destruct (validateUrl newURL (normalizeUrl (formUrl st))); cbn [negb];
      [|auto].
    destruct (newURL (normalizeUrl (formUrl st))); auto.
Qed.

(** X3: handleSubmit ends in one of three ways: a blank field gets
    "Please enter a URL"; a field whose normalized text fails validateUrl
    gets "Please enter a valid URL"; otherwise data is passed on, the
    error is cleared and loading is over.  Nothing is passed on in the
    first two, and "Failed to process URL" is never shown. *)
Theorem handleSubmit_outcome (meta : Metadata) (st : FormState) :
  (trim (formUrl st) = []
   /\ handleSubmit newURL meta st
      = (mkForm (formUrl st) (lit "Please enter a URL") (isLoading st), None))
  \/ (trim (formUrl st) <> []
      /\ validateUrl newURL (normalizeUrl (formUrl st)) = false
      /\ handleSubmit newURL meta st = invalidUrl st)
  \/ (trim (formUrl st) <> []
      /\ validateUrl newURL (normalizeUrl (formUrl st)) = true
      /\ exists data,
           handleSubmit newURL meta st
           = (mkForm (formUrl st) (lit "") false, Some data)).
Proof.
  unfold handleSubmit.
  destruct (trim (formUrl st)) as [|c t] eqn:Et; [left; auto|].
  right. cbn [truthy negb].
  destruct (validateUrl newURL (normalizeUrl (formUrl st))) eqn:V;
    cbn [negb].
  - right. split; [discriminate|]. split; [reflexivity|].
    apply validateUrl_true_iff in V as [u [Eu _]]. rewrite Eu. eauto.
  - left. split; [discriminate|]. auto.
Qed.

(** X4: what handleSubmit passes on is a checked address: its [url] is
    the normalized text of the field, has no white space at either end,
    starts with [http://] or [https://] and parses with the protocol
    [http:] or [https:]; [domain] is the host name of that parse,
    [favicon] is its origin followed by [/favicon.ico], and [title] is
    never missing. *)
Theorem submitted_url_is_checked (meta : Metadata) (st : FormState)
    (data : UrlData) :
  snd (handleSubmit newURL meta st) = Some data ->
  url data = normalizeUrl (formUrl st)
  /\ trimmed (url data)
  /\ (startsWith (url data) (lit "http://") = true
      \/ startsWith (url data) (lit "https://") = true)
  /\ exists u,
       newURL (url data) = Some u
       /\ (protocol u = lit "http:" \/ protocol u = lit "https:")
       /\ domain data = hostname u
       /\ favicon data = Some (origin u ++ lit "/favicon.ico")
       /\ title data = Some (orElse (metaTitle meta) (hostname u)).
Proof.
  unfold handleSubmit.
  destruct (trim (formUrl st)) as [|c t] eqn:Et; [discriminate|].
  cbn [truthy negb].
  destruct (validateUrl newURL (normalizeUrl (formUrl st))) eqn:V;
    cbn [negb]; [|discriminate].
  apply validateUrl_true_iff in V as [u [Eu Hu]]. rewrite Eu.
  cbn [snd]. intros E. injection E as <-. cbn [url domain favicon title].
  split; [reflexivity|]. split; [apply normalizeUrl_trimmed|]. split.
  - destruct (normalizeUrl_shape (formUrl st)) as [H | [_ H]]; [|exact H].
    apply normalizeUrl_blank_iff in H. congruence.
  - exists u. auto.
Qed.

Lemma handleBlur_errorFits (st : FormState) :
  errorFits newURL st -> errorFits newURL (handleBlur st).
Proof.
  intros H. destruct (handleBlur_cases st) as [[E _] | E]; rewrite E;
    [exact H|].
  destruct (normalizeUrl_result_fixed (formUrl st)) as [Hn Ht].
  unfold errorFits in *. cbn [formUrl error]. rewrite Hn, Ht.
  destruct H as [H | [[H Hb] | [H [Hb Hv]]]].
  - now left.
  - right. left. split; [exact H|]. now apply normalizeUrl_blank.
  - right. right. split; [exact H|]. split; [|exact Hv].
    intros Hblank. apply normalizeUrl_blank_iff in Hblank. contradiction.
Qed.

Lemma handleSubmit_errorFits (meta : Metadata) (st : FormState) :
  isLoading st = false ->
  errorFits newURL (fst (handleSubmit newURL meta st))
  /\ isLoading (fst (handleSubmit newURL meta st)) = false
  /\ formUrl (fst (handleSubmit newURL meta st)) = formUrl st
  /\ (forall data, snd (handleSubmit newURL meta st) = Some data ->
      error (fst (handleSubmit newURL meta st)) = lit "").
Proof.
  intros Hl. unfold handleSubmit, invalidUrl, errorFits.
  destruct (trim (formUrl st)) as [|c t] eqn:Et.
  - cbn [truthy negb fst snd formUrl error isLoading]. rewrite Et.
    repeat split; auto. discriminate.
  - cbn [truthy negb].
    destruct (validateUrl newURL (normalizeUrl (formUrl st))) eqn:V;
      cbn [negb].
    + apply validateUrl_true_iff in V as [u [Eu _]]. rewrite Eu.
      cbn [fst snd formUrl error isLoading]. auto.
    + cbn [fst snd formUrl error isLoading]. rewrite Et, V.
      repeat split; auto; try discriminate.
      right. right. repeat split. discriminate.
Qed.

Lemma submitted_errorFits (result : FormState * option UrlData)
    (fw : FormWorld) :
  errorFits newURL (fst result) -> isLoading (fst result) = false ->
  (forall data, snd result = Some data -> error (fst result) = lit "") ->
  errorFits newURL (form (submitted result fw))
  /\ isLoading (form (submitted result fw)) = false.
Proof.
  intros Hfit Hl Hdata. unfold submitted.
  destruct (snd result) as [data|] eqn:E; [|auto].
  destruct (eqb (initialUrl fw) (url data)); [auto|].
  cbn [form]. split; [|exact Hl].
  left. cbn [error]. now apply Hdata with data.
Qed.

Lemma formStep_errorFits (e : formEvent) (fw : FormWorld) :
  errorFits newURL (form fw) /\ isLoading (form fw) = false ->
  errorFits newURL (form (formStep newURL e fw))
  /\ isLoading (form (formStep newURL e fw)) = false.
Proof.
  intros [Hfit Hl].
  destruct e as [value| | |key meta|meta]; cbn [formStep].
  - cbn. split; [now left | exact Hl].
  - cbn [form]. split; [now apply handleBlur_errorFits|].
    destruct (handleBlur_cases (form fw)) as [[E _] | E]; now rewrite E.
  - cbn. split; [now left | exact Hl].
  - destruct (handleSubmit_errorFits meta (form fw) Hl)
      as [Sfit [Sl [_ Sdata]]].
    unfold handleKeyDown.
    destruct (eqb key (lit "Enter")) eqn:K.
    + apply eqb_eq in K. subst key. cbn [eqb N.eqb Pos.eqb andb].
      destruct (handleSubmit newURL meta (form fw)) as [st1 data] eqn:E.
      cbn [fst snd] in *.
      apply submitted_errorFits; auto.
    + destruct (eqb key (lit "Escape")); apply submitted_errorFits;
        cbn [fst snd handleClear error isLoading]; auto;
        try (now left); intros data Hd; discriminate.
  - destruct (handleSubmit_errorFits meta (form fw) Hl)
      as [Sfit [Sl [_ Sdata]]].
    apply submitted_errorFits; auto.
Qed.

(** X5: whatever is typed, blurred, cleared, keyed or submitted, starting
    from the form as first rendered, the form is never left loading and
    the message under the field is about the text now in the field: it
    is empty, or "Please enter a URL" over a blank field, or "Please
    enter a valid URL" over a field whose normalized text fails
    validateUrl. *)
Theorem form_error_fits_field (startUrl : jsstring)
    (events : list formEvent) :
  errorFits newURL (form (runForm newURL events (mountForm startUrl)))
  /\ isLoading (form (runForm newURL events (mountForm startUrl))) = false.
Proof.
  unfold runForm.
  assert (H : errorFits newURL (form (mountForm startUrl))
              /\ isLoading (form (mountForm startUrl)) = false)
    by (split; [now left | reflexivity]).
  revert H. generalize (mountForm startUrl).
  induction events as [|e events IH]; intros fw H; [exact H|].
  cbn [fold_left]. apply IH. now apply formStep_errorFits.
Qed.

End WithPlatform.

Lemma submitted_url_is_checked_witness :
  trimmed (lit "https://example.com").
Proof.
  exact (proj1 (proj2 (submitted_url_is_checked WHATWG.newURL
           (mkMetadata None None None)
           (mkForm (lit " example.com ") (lit "") false)
           (mkUrlData (lit "https://example.com") (lit "example.com")
              (Some (lit "https://example.com/favicon.ico"))
              (Some (lit "example.com")) None None)
           eq_refl))).
Defined.

End FormFacts.

(** ** App: more on the pattern, the search and the response *)

Module ResponseFacts.

Import App PatternFacts SearchFacts.

Lemma literal_extends (pattern s rest t : jsstring) :
  literal pattern s = Some rest -> literal pattern (s ++ t) = Some (rest ++ t).
Proof.
  revert s. induction pattern as [|p pattern IH]; intros s; simpl.
  - intros E. now injection E as ->.
  - destruct s as [|c s]; [discriminate|]. simpl.
    destruct (canonicalize c =? canonicalize p); [apply IH | discriminate].
Qed.

Lemma matchesLiteral_extends (pattern s t : jsstring) :
  matchesLiteral pattern s = true -> matchesLiteral pattern (s ++ t) = true.
Proof.
  unfold matchesLiteral.
  destruct (literal pattern s) as [rest|] eqn:E; [|discriminate].
  now rewrite (literal_extends _ _ _ t E).
Qed.

Lemma dotPlusThen_extends (pattern s t : jsstring) :
  dotPlusThen pattern s = true -> dotPlusThen pattern (s ++ t) = true.
Proof.
  induction s as [|c s IH]; simpl; [discriminate|].
  rewrite !andb_true_iff, !orb_true_iff.
  intros [Hc [H|H]]; (split; [exact Hc|]).
  - left. now apply matchesLiteral_extends.
  - right. now apply IH.
Qed.

(** X7: the pattern is tied to the start of the string only: whatever
    follows a string that looksLikeUrl accepts, the longer string is
    accepted too. *)
Theorem looksLikeUrl_extends (s t : jsstring) :
  looksLikeUrl s = true -> looksLikeUrl (s ++ t) = true.
Proof.
  unfold looksLikeUrl. rewrite !orb_true_iff. intros [H|H]; [left|right].
  - destruct (literal (lit "data:image/") s) as [rest|] eqn:E;
      [|discriminate].
    rewrite (literal_extends _ _ _ t E). now apply dotPlusThen_extends.
  - destruct (literal (lit "http") s) as [rest|] eqn:E; [|discriminate].
    rewrite (literal_extends _ _ _ t E).
    apply orb_true_iff in H. apply orb_true_iff.
    destruct H as [H|H]; [left|right]; now apply matchesLiteral_extends.
Qed.

Lemma looksLikeUrl_extends_witness :
  looksLikeUrl (lit "https://x/y.png" ++ [10] ++ lit "<html>") = true.
Proof.
  exact (looksLikeUrl_extends (lit "https://x/y.png") ([10] ++ lit "<html>")
           eq_refl).
Defined.

Lemma direct_firstPresent (properties : list (jsstring * value)) :
  direct (VObject properties)
  = firstPresent (map (fun key => lookup key properties) priorityKeys).
Proof. reflexivity. Qed.

Lemma firstPresent_skips (before after : list (option value))
    (v : option value) :
  (forall b, In b before -> isNullish b = true) ->
  isNullish v = false ->
  firstPresent (before ++ v :: after) = v.
Proof.
  intros Hb Hv. induction before as [|b before IH].
  - destruct after as [|a after]; [reflexivity|].
    cbn [app firstPresent]. destruct v as [[]|]; try reflexivity;
      discriminate.
  - assert (E : firstPresent ((b :: before) ++ v :: after)
              = b ?? firstPresent (before ++ v :: after)).
    { rewrite <- app_comm_cons.
      destruct (before ++ v :: after) as [|x rest] eqn:E;
        [destruct before; discriminate | reflexivity]. }
    rewrite E, IH by (intros b' Hb'; apply Hb; now right).
    specialize (Hb b (or_introl eq_refl)).
    destruct b as [[]|]; try discriminate; reflexivity.
Qed.

(** X8: the six keys are tried in their order, and a key that is absent
    or [null] is passed over: when every key before [key] in the list is
    absent or null and [key] holds a string that matches the pattern,
    that string is the result, whatever else the object holds. *)
Theorem first_present_key_wins (properties : list (jsstring * value))
    (before after : list jsstring) (key s : jsstring) :
  priorityKeys = before ++ key :: after ->
  (forall k, In k before -> isNullish (lookup k properties) = true) ->
  lookup key properties = Some (VString s) ->
  looksLikeUrl s = true ->
  findImageDeep (VObject properties) = Some s.
Proof.
  intros Hkeys Hbefore Hkey Hs.
  apply findImageDeep_direct; [|exact Hs].
  rewrite direct_firstPresent, Hkeys, map_app. cbn [map].
  rewrite Hkey. apply firstPresent_skips; [|reflexivity].
  intros b Hb. apply in_map_iff in Hb as [k [<- Hk]]. now apply Hbefore.
Qed.

Lemma first_present_key_wins_witness :
  findImageDeep
    (VObject [(lit "nested", VObject [(lit "x", VString (lit "https://x/deep.png"))]);
              (lit "image", VNull);
              (lit "thumbnail", VString (lit "https://x/t.png"))])
  = Some (lit "https://x/t.png").
Proof.
  refine (first_present_key_wins
            [(lit "nested", VObject [(lit "x", VString (lit "https://x/deep.png"))]);
             (lit "image", VNull);
             (lit "thumbnail", VString (lit "https://x/t.png"))]
            [lit "image"; lit "imageUrl"; lit "image_url"]
            [lit "thumb"; lit "url"] (lit "thumbnail") (lit "https://x/t.png")
            eq_refl _ eq_refl eq_refl).
  intros k [<-|[<-|[<-|[]]]]; reflexivity.
Defined.

Section WithPlatform.

Variable createObjectURL : Blob -> jsstring.

(** X9: a JSON body that is not an object or array with something in it
    (a bare string, number, boolean or null, an empty object or array)
    never gives an image, not even a bare string that matches the
    pattern: the note says that no image field was found. *)
Theorem bare_json_value_gives_note (now : N) (res : Response) (data : value)
    (w : World) :
  ok res = true ->
  startsWith (contentType res) (lit "image/") = false ->
  includes (contentType res) (lit "application/json") = true ->
  json res = Some data ->
  (forall c, ~ child c data) ->
  webhookImage (app (postWebhook createObjectURL now (Some res) w)) = None
  /\ webhookNote (app (postWebhook createObjectURL now (Some res) w))
     = Some noteNoImage.
Proof.
  intros Hok Himg Hjson Hdata Hbare.
  unfold postWebhook, postWebhookSettle, interpret.
  rewrite Hok, Himg, Hjson, Hdata, (findImageDeep_scalar data Hbare).
  now split.
Qed.

(** X10: a successful response whose content type starts with [image/]
    is read as a blob and nothing else is looked at, not even a content
    type that also names JSON: the image becomes the object URL of the
    blob, with the toast "Preview received from webhook"; when reading
    the blob fails, the [catch] block leaves the CORS note instead. *)
Theorem image_response_gives_blob (now : N) (res : Response) (w : World) :
  ok res = true ->
  startsWith (contentType res) (lit "image/") = true ->
  let w' := postWebhook createObjectURL now (Some res) w in
  webhookLoading (app w') = false
  /\ match blob res with
     | Some b =>
         webhookImage (app w') = Some (createObjectURL b)
         /\ webhookNote (app w') = None
         /\ toasts (app w') =
            toasts (app w)
            ++ [toastAt now (lit "Preview received from webhook") success]
     | None =>
         webhookImage (app w') = None
         /\ webhookNote (app w') = Some noteCors
         /\ toasts (app w') =
            toasts (app w)
            ++ [toastAt now
                  (lit "Couldn't send URL due to site restrictions (CORS)")
                  info]
     end.
Proof.
  intros Hok Himg w'. subst w'.
  unfold postWebhook, postWebhookSettle, interpret.
  rewrite Hok, Himg. destruct (blob res); repeat split.
Qed.

(** X11: when [fetch] itself rejects, or the response is successful but
    its text cannot be read, the [catch] block runs: the CORS note, an
    info toast, no image, loading over.  The note differs from the one
    left for an error status. *)
Theorem transport_failure_gives_cors_note (now : N)
    (fetched : option Response) (w : World) :
  fetched = None
  \/ (exists res,
        fetched = Some res /\ ok res = true
        /\ startsWith (contentType res) (lit "image/") = false
        /\ includes (contentType res) (lit "application/json") = false
        /\ text res = None) ->
  let w' := postWebhook createObjectURL now fetched w in
  webhookImage (app w') = None
  /\ webhookNote (app w') = Some noteCors
  /\ webhookLoading (app w') = false
  /\ toasts (app w') =
     toasts (app w)
     ++ [toastAt now (lit "Couldn't send URL due to site restrictions (CORS)")
           info]
  /\ noteCors <> noteError.
Proof.
  intros H w'. subst w'.
  unfold postWebhook, postWebhookSettle, interpret.
  destruct H as [-> | [res [-> [Hok [Himg [Hjson Htext]]]]]].
  - repeat split. discriminate.
  - rewrite Hok, Himg, Hjson, Htext. repeat split. discriminate.
Qed.

End WithPlatform.

Lemma bare_json_value_gives_note_witness :
  webhookNote
    (app (postWebhook noBlobUrl 0
            (Some (jsonResponse (VString (lit "https://x/y.png")))) initial))
  = Some noteNoImage.
Proof.
  refine (proj2 (bare_json_value_gives_note noBlobUrl 0
                   (jsonResponse (VString (lit "https://x/y.png")))
                   (VString (lit "https://x/y.png")) initial
                   eq_refl eq_refl eq_refl eq_refl _)).
  intros c Hc. inversion Hc.
Defined.

Lemma image_response_gives_blob_witness :
  webhookImage
    (app (postWebhook noBlobUrl 0
            (Some (mkResponse 200 (Some (lit "image/png; application/json"))
                     (Some []) (Some exampleData) (Some (lit "text"))))
            initial))
  = Some (lit "blob:").
Proof.
  exact (proj1 (proj2 (image_response_gives_blob noBlobUrl 0
           (mkResponse 200 (Some (lit "image/png; application/json"))
              (Some []) (Some exampleData) (Some (lit "text")))
           initial eq_refl eq_refl))).
Defined.

Lemma transport_failure_gives_cors_note_witness :
  webhookNote (app (postWebhook noBlobUrl 0 None initial)) = Some noteCors.
Proof.
  exact (proj1 (proj2 (transport_failure_gives_cors_note noBlobUrl 0 None
           initial (or_introl eq_refl)))).
Defined.

End ResponseFacts.

(** ** App: every response is reported *)

Module OutcomeFacts.

Import App SearchFacts.

Section WithPlatform.

Variable createObjectURL : Blob -> jsstring.

(** The ways the handling of a response can end, as the state it leaves,
    from whatever state it finds. *)
Lemma settle_ends (now : N) (fetched : option Response) (w : World) :
  let w' := postWebhookSettle createObjectURL now fetched w in
  (exists src,
     w' = withApp (setWebhookLoading false) (received now src w)
     /\ (truthy src = true \/ exists b, src = createObjectURL b)
     /\ exists res, fetched = Some res /\ ok res = true)
  \/ (exists note,
        w' = withApp (setWebhookLoading false) (noted now note w)
        /\ (note = noteNoImage \/ note = noteNoBody)
        /\ exists res, fetched = Some res /\ ok res = true)
  \/ (w' = withApp (setWebhookLoading false) (caught now w)
      /\ forall res, fetched = Some res -> ok res = true)
  \/ (w' = withApp (setWebhookLoading false)
             (withApp (setWebhookNote (Some noteError))
                (addToast now (lit "Webhook responded with an error") error
                   w))
      /\ exists res, fetched = Some res /\ ok res = false).
Proof.
  cbn zeta. unfold postWebhookSettle, interpret.
  destruct fetched as [res|].
  2:{ right. right. left. split; [reflexivity | discriminate]. }
  destruct (ok res) eqn:Hok.
  2:{ right. right. right. split; [reflexivity | eauto]. }
  assert (Hres : exists r, Some res = Some r /\ ok r = true) by eauto.
  assert (Hall : forall r, Some res = Some r -> ok r = true)
    by (intros r E; now injection E as <-).
  destruct (startsWith (contentType res) (lit "image/")).
  { destruct (blob res) as [b|].
    - left. exists (createObjectURL b). eauto.
    - right. right. left. auto. }
  destruct (includes (contentType res) (lit "application/json")).
  { destruct (findImageDeep
                (match json res with Some v => v | None => VNull end))
      as [found|].
    - destruct (truthy found) eqn:Ht.
      + left. exists found. auto.
      + right. left. exists noteNoImage. auto.
    - right. left. exists noteNoImage. auto. }
  destruct (text res) as [body|].
  2:{ right. right. left. auto. }
  destruct (truthy body && looksLikeUrl (trim body)) eqn:Hm.
  - apply andb_true_iff in Hm as [_ Hm].
    apply looksLikeUrl_nonempty in Hm.
    left. exists (trim body). auto.
  - destruct (truthy body); cbn [negb].
    + right. left. exists noteNoImage. auto.
    + right. left. exists noteNoBody. auto.
Qed.

Ltac slots :=
  unfold render;
  cbn [withApp setWebhookLoading setWebhookNote setWebhookImage setToasts
       received noted caught addToast postWebhookStart app webhookImage
       webhookNote webhookLoading selectedUrl toasts type id].

(** X12: once a submission has been made, the handling of a response,
    from whatever state it finds (other calls may have started or ended
    since this one began), turns loading off, adds exactly one toast and
    writes exactly one of the two slots, leaving the other as found: the
    image, which is then shown, or one of the four fixed notes, which is
    then shown unless an image was left standing.  So the panel shows an
    image or a fixed note, never the spinner and never "No webhook
    response yet.".  For a call with nothing between its start and its
    response, exactly one of image and note is stored afterwards.
    (Object URLs are never empty.) *)
Theorem postWebhook_always_reports (now : N) (fetched : option Response)
    (w : World) (submission : UrlData) :
  (forall b, createObjectURL b <> []) ->
  selectedUrl (app w) = Some submission ->
  let w' := postWebhookSettle createObjectURL now fetched w in
  let alone := postWebhook createObjectURL now fetched w in
  webhookLoading (app w') = false
  /\ List.length (toasts (app w')) = S (List.length (toasts (app w)))
  /\ ((exists src,
         webhookImage (app w') = Some src
         /\ webhookNote (app w') = webhookNote (app w)
         /\ render (app w') = Image src)
      \/ (exists note,
            In note fixedNotes
            /\ webhookNote (app w') = Some note
            /\ webhookImage (app w') = webhookImage (app w)
            /\ (render (app w') = NoteText note
                \/ exists standing,
                     webhookImage (app w) = Some standing
                     /\ render (app w') = Image standing)))
  /\ ((exists src,
         webhookImage (app alone) = Some src
         /\ webhookNote (app alone) = None
         /\ render (app alone) = Image src)
      \/ (exists note,
            In note fixedNotes
            /\ webhookImage (app alone) = None
            /\ webhookNote (app alone) = Some note
            /\ render (app alone) = NoteText note)).
Proof.
  intros Hurl Hsel w' alone.
  assert (Hsrc : forall src,
            truthy src = true \/ (exists b, src = createObjectURL b) ->
            truthy src = true).
  { intros src [Ht | [b ->]]; [exact Ht | apply truthy_true, Hurl]. }
  split; [|split; [|split]].
  - reflexivity.
  - destruct (settle_ends now fetched w)
      as [[src [E _]] | [[note [E _]] | [[E _] | [E _]]]];
      fold w' in E; rewrite E; slots; rewrite length_app; cbn; lia.
  - destruct (settle_ends now fetched w)
      as [[src [E [Ht _]]] | [[note [E [Hn _]]] | [[E _] | [E _]]]];
      fold w' in E; rewrite E; clear E w'; slots; rewrite Hsel.
    + left. exists src. rewrite (Hsrc src Ht). auto.
    + right. exists note. split; [destruct Hn as [-> | ->]; cbn; auto|].
      split; [reflexivity|]. split; [reflexivity|].
      destruct (webhookImage (app w)) as [standing|]; [|now left].
      destruct (truthy standing); [right; eauto | now left].
    + right. exists noteCors. split; [cbn; auto|].
      split; [reflexivity|]. split; [reflexivity|].
      destruct (webhookImage (app w)) as [standing|]; [|now left].
      destruct (truthy standing); [right; eauto | now left].
    + right. exists noteError. split; [cbn; auto|].
      split; [reflexivity|]. split; [reflexivity|].
      destruct (webhookImage (app w)) as [standing|]; [|now left].
      destruct (truthy standing); [right; eauto | now left].
  - unfold alone, postWebhook.
    destruct (settle_ends now fetched (postWebhookStart w))
      as [[src [E [Ht _]]] | [[note [E [Hn _]]] | [[E _] | [E _]]]];
      cbv zeta in E; rewrite E; clear E; slots; rewrite Hsel.
    + left. exists src. rewrite (Hsrc src Ht). auto.
    + right. exists note. repeat split; auto.
      destruct Hn as [-> | ->]; cbn; auto.
    + right. exists noteCors. repeat split; auto. cbn. auto.
    + right. exists noteError. repeat split; auto. cbn. auto.
Qed.


End WithPlatform.

Lemma postWebhook_always_reports_witness :
  webhookLoading
    (app (postWebhookSettle noBlobUrl 900
            (Some (jsonResponse (VObject [(lit "status", VString (lit "ok"))])))
            (after [(0, Submit exampleUrl); (100, Submit exampleUrl);
                    (800, Respond (Some (jsonResponse exampleData)))])))
  = false.
Proof.
  refine (proj1 (postWebhook_always_reports noBlobUrl 900
                   (Some (jsonResponse
                            (VObject [(lit "status", VString (lit "ok"))])))
                   (after [(0, Submit exampleUrl); (100, Submit exampleUrl);
                           (800, Respond (Some (jsonResponse exampleData)))])
                   exampleUrl _ eq_refl)).
  intros b. discriminate.
Defined.

End OutcomeFacts.

(** ** App: more on toasts and on the spinner *)

Module QueueFacts.

Import App WorldFacts.

Lemma wellTimed_oneToast (now : N) (w w' : World) :
  oneToast now w w' -> wellTimed w -> wellTimed w'.
Proof.
  intros [message [type [_ Hm]]] H t Ht. rewrite Hm in Ht.
  apply in_app_or in Ht as [Ht | [<- | []]]; [now apply H|].
  cbn [due target]. split; [lia|].
  f_equal. lia.
Qed.

Lemma wellTimed_same (w w' : World) :
  timers w' = timers w -> wellTimed w -> wellTimed w'.
Proof. intros E H t Ht. rewrite E in Ht. now apply H. Qed.

Lemma wellTimed_elapse (now : N) (w : World) :
  wellTimed w -> wellTimed (elapse now w).
Proof.
  intros H t Ht. destruct (elapse_spec now w) as [_ [Htimers _]].
  apply Htimers in Ht as [Ht _]. now apply H.
Qed.

Lemma present_elapse (T now : N) (toast : ToastMessage) (w : World) :
  wellTimed w -> now < T + 3000 -> id toast = toString T ->
  In toast (toasts (app w)) -> In toast (toasts (app (elapse now w))).
Proof.
  intros Hw Hnow Hid Hin. destruct (elapse_spec now w) as [Htoasts _].
  apply Htoasts. split; [exact Hin|].
  intros t Ht Hdue Htarget. destruct (Hw t Ht) as [H3000 Hspell].
  rewrite Hspell, Hid in Htarget. apply toString_inj in Htarget. lia.
Qed.

Section WithPlatform.

Variable createObjectURL : Blob -> jsstring.
Variable newURL : jsstring -> option URL.

(** What one event does to the queue and the timers, after the timers
    due by then have run. *)
Lemma handle_queue (now : N) (e : event) (w w' : World) :
  handle createObjectURL newURL now e w = Some w' ->
  sameToasts (elapse now w) w'
  \/ oneToast now (elapse now w) w'
  \/ (exists toastId,
        e = Dismiss toastId
        /\ toasts (app w') = keepOthers toastId (toasts (app (elapse now w)))
        /\ timers w' = timers (elapse now w)).
Proof.
  unfold handle. set (w0 := elapse now w). clearbody w0.
  destruct e as [urlData|fetched|toastId| |k body]; intros H.
  - injection H as <-. left. now split.
  - destruct (pending w0) as [|n]; [discriminate|]. injection H as <-.
    right. left.
    destruct (interpret_effect createObjectURL now fetched
                (mkWorld (app w0) (timers w0) n (downloads w0)))
      as [[m [ty [Ht Hm]]] _].
    exists m, ty. split; [exact Ht | exact Hm].
  - injection H as <-. right. right. exists toastId. now repeat split.
  - injection H as <-. unfold handleDownloadImage.
    destruct (webhookImage (app w0)) as [src|]; [|left; now split].
    destruct (truthy src); [|left; now split]. cbn [negb].
    destruct (isLocalReference src); cbn [fst].
    + right. left. apply addToast_oneToast.
    + left. now split.
  - destruct (nth_error (downloads w0) k) as [src|]; [|discriminate].
    injection H as <-. right. left.
    destruct body as [b|]; cbn [downloadSettle fst];
      eexists; eexists; split; reflexivity.
Qed.

Lemma handle_wellTimed (now : N) (e : event) (w w' : World) :
  handle createObjectURL newURL now e w = Some w' ->
  wellTimed w -> wellTimed w'.
Proof.
  intros H Hw. apply (wellTimed_elapse now) in Hw.
  destruct (handle_queue now e w w' H)
    as [[_ Hm] | [Hone | [j [_ [_ Hm]]]]].
  - now apply (wellTimed_same _ _ Hm).
  - now apply (wellTimed_oneToast now _ _ Hone).
  - now apply (wellTimed_same _ _ Hm).
Qed.

Lemma handle_present (T now : N) (e : event) (toast : ToastMessage)
    (w w' : World) :
  handle createObjectURL newURL now e w = Some w' ->
  undisturbed T (now, e) -> id toast = toString T ->
  wellTimed w -> In toast (toasts (app w)) -> In toast (toasts (app w')).
Proof.
  intros H [Hnow Hne] Hid Hw Hin. cbn [fst snd] in Hnow, Hne.
  apply (present_elapse T now toast w Hw Hnow Hid) in Hin.
  destruct (handle_queue now e w w' H)
    as [[Ht _] | [[m [ty [Ht _]]] | [j [He [Ht _]]]]]; rewrite Ht.
  - exact Hin.
  - apply in_or_app. now left.
  - apply keepOthers_In. split; [exact Hin|].
    intros E. apply Hne. rewrite He. f_equal. congruence.
Qed.

(** X14: a toast is not taken away early.  In a world whose timers were
    all set by addToast, a toast added at time [T] (milliseconds) is
    still in the queue at every time before [T + 3000], whatever happens
    in between, as long as it is not dismissed. *)
Theorem toast_stays_until_timeout (T t : N) (message : jsstring)
    (type : ToastType) (trace : list (N * event)) (w w' : World) :
  wellTimed w ->
  Forall (undisturbed T) trace ->
  run createObjectURL newURL trace (addToast T message type w) = Some w' ->
  t < T + 3000 ->
  In (toastAt T message type) (toasts (app (elapse t w'))).
Proof.
  intros Hw Htrace Hrun Ht.
  assert (H : wellTimed w'
              /\ In (toastAt T message type) (toasts (app w'))).
  { assert (H0 : wellTimed (addToast T message type w)
                 /\ In (toastAt T message type)
                      (toasts (app (addToast T message type w)))).
    { split.
      - apply (wellTimed_oneToast T w); [apply addToast_oneToast | exact Hw].
      - cbn. apply in_or_app. right. now left. }
    revert Hrun H0. generalize (addToast T message type w).
    induction Htrace as [|[now e] rest Hstep Hrest IH]; intros w0; simpl.
    - intros E. now injection E as <-.
    - destruct (handle createObjectURL newURL now e w0) as [w1|] eqn:E;
        [|discriminate].
      intros Hrun [Hw0 Hin]. apply (IH w1 Hrun). split.
      + now apply (handle_wellTimed now e w0).
      + now apply (handle_present T now e _ w0 w1). }
  destruct H as [Hw' Hin].
  now apply (present_elapse T t).
Qed.

(** Every world reached from the initial one has only timers set by
    addToast. *)
Lemma run_wellTimed (trace : list (N * event)) (w w' : World) :
  run createObjectURL newURL trace w = Some w' -> wellTimed w -> wellTimed w'.
Proof.
  revert w. induction trace as [|[now e] rest IH]; intros w; simpl.
  - intros E. now injection E as <-.
  - destruct (handle createObjectURL newURL now e w) as [w1|] eqn:E;
      [|discriminate].
    intros Hrun Hw. apply (IH w1 Hrun). now apply (handle_wellTimed now e w).
Qed.

Lemma busy_same (w w' : World) : sameResult w w' -> busy w -> busy w'.
Proof.
  intros [_ [_ [Hl Hp]]]. unfold busy. now rewrite Hl, Hp.
Qed.

Lemma handle_busy (now : N) (e : event) (w w' : World) :
  match e with Submit _ => pending w = 0%nat | _ => True end ->
  handle createObjectURL newURL now e w = Some w' ->
  busy w -> busy w'.
Proof.
  intros Hseq H Hb.
  destruct (elapse_spec now w) as [_ [_ Hsame]].
  destruct e as [urlData|fetched|toastId| |k body].
  - destruct (submit_clears _ _ _ _ _ _ H) as [_ [_ [Hl Hp]]].
    unfold busy. rewrite Hl, Hp, Hseq. split; [lia | tauto].
  - apply (busy_same _ _ Hsame) in Hb.
    unfold handle in H. set (w0 := elapse now w) in *. clearbody w0.
    destruct (pending w0) as [|n] eqn:E; [discriminate|].
    injection H as <-. destruct Hb as [Hle _]. rewrite E in Hle.
    assert (n = 0)%nat by lia. subst n.
    destruct (interpret_effect createObjectURL now fetched
                (mkWorld (app w0) (timers w0) 0%nat (downloads w0)))
      as [_ [Hp _]].
    cbn zeta in Hp. cbn [pending] in Hp.
    unfold busy, postWebhookSettle.
    cbn [withApp app pending setWebhookLoading webhookLoading].
    rewrite Hp. split; [lia|]. split; [discriminate | lia].
  - apply (busy_same _ _ Hsame) in Hb.
    injection H as <-. revert Hb. apply busy_same. now repeat split.
  - apply (busy_same _ _ Hsame) in Hb.
    injection H as <-. revert Hb. apply busy_same.
    unfold handleDownloadImage.
    destruct (webhookImage (app (elapse now w))) as [src|];
      [|now repeat split].
    destruct (truthy src); [|now repeat split]. cbn [negb].
    destruct (isLocalReference src); now repeat split.
  - apply (busy_same _ _ Hsame) in Hb.
    unfold handle in H. set (w0 := elapse now w) in *. clearbody w0.
    destruct (nth_error (downloads w0) k) as [src|]; [|discriminate].
    injection H as <-. revert Hb. apply busy_same.
    destruct body; now repeat split.
Qed.

(** X16: in a run from the initial state in which no submission is made
    while an earlier one awaits its response, the loading flag is set
    exactly while a response is awaited, so once something was submitted
    the panel shows the spinner exactly then. *)
Theorem spinner_while_waiting (trace : list (N * event)) (w : World) :
  sequential createObjectURL newURL trace initial = true ->
  run createObjectURL newURL trace initial = Some w ->
  (webhookLoading (app w) = true <-> pending w = 1%nat)
  /\ (selectedUrl (app w) <> None ->
      (render (app w) = Spinner <-> pending w = 1%nat)).
Proof.
  intros Hseq Hrun.
  assert (Hb : busy w).
  { assert (H0 : busy initial) by (split; cbn; [lia | split; discriminate]).
    revert Hseq Hrun H0. generalize initial.
    induction trace as [|[now e] rest IH]; intros w0; simpl.
    - intros _ E. now injection E as <-.
    - destruct (handle createObjectURL newURL now e w0) as [w1|] eqn:E;
        [|discriminate].
      intros Hs Hrun Hb0. apply andb_true_iff in Hs as [Hs Hrest].
      apply (IH w1 Hrest Hrun). apply (handle_busy now e w0 w1); auto.
      destruct e; auto. now apply Nat.eqb_eq. }
  destruct Hb as [_ Hb]. split; [exact Hb|].
  intros Hsel. rewrite <- Hb. unfold render.
  destruct (selectedUrl (app w)); [|congruence].
  destruct (webhookLoading (app w)); [tauto|].
  split; [|discriminate].
  destruct (webhookImage (app w)) as [src|]; [destruct (truthy src)|];
    discriminate.
Qed.

End WithPlatform.

(** X15: toasts made in the same millisecond share an id.  After two
    toasts were added and the id of the first was dismissed, the first
    is gone, and the second is still there exactly when it was added in
    another millisecond. *)
Theorem dismiss_takes_same_millisecond (T1 T2 : N) (m1 m2 : jsstring)
    (ty1 ty2 : ToastType) (w : World) :
  let w' :=
    removeToast (toString T1) (addToast T2 m2 ty2 (addToast T1 m1 ty1 w)) in
  ~ In (toastAt T1 m1 ty1) (toasts (app w'))
  /\ (In (toastAt T2 m2 ty2) (toasts (app w')) <-> T1 <> T2).
Proof.
  cbn zeta. cbn [removeToast withApp app setToasts toasts addToast].
  split.
  - intros H. apply keepOthers_In in H as [_ H]. now apply H.
  - rewrite keepOthers_In. cbn [toastAt id]. split.
    + intros [_ H] E. apply H. now rewrite E.
    + intros Hne. split.
      * apply in_or_app. right. now left.
      * intros E. apply toString_inj in E. congruence.
Qed.

Lemma toast_stays_until_timeout_witness :
  In (toastAt 1000 (lit "Download started") success)
    (toasts (app (elapse 3999
       (match run noBlobUrl WHATWG.newURL answeredTrace
                (addToast 1000 (lit "Download started") success initial)
        with Some w => w | None => initial end)))).
Proof.
  refine (toast_stays_until_timeout noBlobUrl WHATWG.newURL 1000 3999
            (lit "Download started") success answeredTrace initial
            (match run noBlobUrl WHATWG.newURL answeredTrace
                     (addToast 1000 (lit "Download started") success initial)
             with Some w => w | None => initial end)
            _ _ eq_refl eq_refl).
  - intros t [].
  - repeat constructor; discriminate.
Defined.

Lemma spinner_while_waiting_witness :
  webhookLoading (app (after [(0, Submit exampleUrl)])) = true
  <-> pending (after [(0, Submit exampleUrl)]) = 1%nat.
Proof.
  exact (proj1 (spinner_while_waiting noBlobUrl WHATWG.newURL
                  [(0, Submit exampleUrl)] (after [(0, Submit exampleUrl)])
                  eq_refl eq_refl)).
Defined.

End QueueFacts.

(** ** App: more on the name of a download *)

Module FilenameFacts.

Import App.

Lemma includes_inside (front p back : jsstring) :
  includes (front ++ p ++ back) p = true.
Proof.
  induction front as [|c front IH].
  - pose proof (startsWith_app p back) as H.
    cbn [app]. destruct (p ++ back); simpl; now rewrite H.
  - simpl. rewrite IH. apply orb_true_r.
Qed.

Lemma includes_nonempty (s p : jsstring) :
  p <> [] -> includes s p = true -> s <> [].
Proof.
  intros Hp H ->. destruct p; [congruence | discriminate].
Qed.

Lemma split_pieces (sep : code_unit) (s : jsstring) :
  Forall (fun piece => ~ In sep piece) (split sep s).
Proof.
  induction s as [|c s IH]; simpl.
  - constructor; [intros [] | constructor].
  - destruct (N.eqb_spec c sep) as [->|Hne].
    + constructor; [intros [] | exact IH].
    + destruct (split sep s) as [|piece pieces];
        [constructor; [intros [H|[]]; congruence | constructor]|].
      inversion IH as [|? ? Hpiece Hrest]; subst.
      constructor; [|exact Hrest].
      intros [H|H]; [congruence | contradiction].
Qed.

Lemma pop_In {A : Type} (l : list A) (x : A) : pop l = Some x -> In x l.
Proof.
  induction l as [|y l IH]; [discriminate|].
  destruct l as [|z l].
  - intros E. injection E as ->. now left.
  - intros E. right. now apply IH.
Qed.

Section WithPlatform.

Variable newURL : jsstring -> option URL.

(** X17: whatever the reference and however it parses, the name that
    getFilename gives is not empty, contains a dot, and contains no
    slash. *)
Theorem getFilename_is_a_file_name (urlStr : jsstring) :
  getFilename newURL urlStr <> []
  /\ includes (getFilename newURL urlStr) (lit ".") = true
  /\ ~ In 47 (getFilename newURL urlStr).
Proof.
  assert (P : lit "preview.png" <> []
              /\ includes (lit "preview.png") (lit ".") = true
              /\ ~ In 47 (lit "preview.png")).
  { split; [discriminate|]. split; [reflexivity|].
    cbn. intuition discriminate. }
  unfold getFilename.
  destruct (startsWith urlStr (lit "data:image/")); [exact P|].
  destruct (newURL urlStr) as [u|]; [|exact P].
  set (name := match pop (split 47 (pathname u)) with
               | Some segment =>
                   if truthy segment then segment else lit "preview"
               | None => lit "preview"
               end).
  assert (Hname : ~ In 47 name).
  { subst name. destruct (pop (split 47 (pathname u))) as [segment|] eqn:E.
    - destruct (truthy segment).
      + apply pop_In in E.
        pose proof (split_pieces 47 (pathname u)) as H.
        rewrite Forall_forall in H. now apply H.
      + cbn. intuition discriminate.
    - cbn. intuition discriminate. }
  destruct (includes name (lit ".")) eqn:Hdot.
  - split; [|split; [exact Hdot | exact Hname]].
    apply (includes_nonempty _ (lit ".")); [discriminate | exact Hdot].
  - split; [|split].
    + destruct name; discriminate.
    + change (lit ".png") with (lit "." ++ lit "png").
      apply includes_inside.
    + intros H. apply in_app_or in H as [H|H]; [contradiction|].
      cbn in H. intuition discriminate.
Qed.

End WithPlatform.

End FilenameFacts.

(** ** App: the theme across visits *)

Module ThemeFacts.

Import Theme.

Lemma toggleTheme_in_step (st : ThemeState) :
  darkClass (toggleTheme st) = isDark (toggleTheme st)
  /\ savedTheme (toggleTheme st)
     = Some (if isDark (toggleTheme st) then lit "dark" else lit "light")
  /\ isDark (toggleTheme st) = negb (isDark st).
Proof. destruct st as [[] s c]; repeat split. Qed.

Lemma toggles_last (n : nat) (st : ThemeState) :
  toggles (S n) st = toggleTheme (toggles n st).
Proof.
  revert st. induction n as [|n IH]; intros st; [reflexivity|].
  change (toggles (S (S n)) st) with (toggles (S n) (toggleTheme st)).
  now rewrite IH.
Qed.

Lemma applySavedTheme_after_toggle (prefersDark : bool) (st : ThemeState) :
  isDark (applySavedTheme prefersDark (loaded (savedTheme (toggleTheme st))))
  = isDark (toggleTheme st).
Proof. destruct st as [[] s c]; reflexivity. Qed.

(** X18: the choice made with the toggle survives a reload.  After a
    visit with at least one click on the toggle, the page loaded again
    on top of what was stored comes up with the same theme, whatever the
    platform prefers; and during every visit the class on the root
    element agrees with the flag. *)
Theorem theme_choice_survives_reload (prefersDark laterPreference : bool)
    (stored : option jsstring) (n : nat) :
  (0 < n)%nat ->
  let left := session prefersDark stored n in
  darkClass left = isDark left
  /\ savedTheme left = Some (if isDark left then lit "dark" else lit "light")
  /\ isDark (session laterPreference (savedTheme left) 0) = isDark left
  /\ darkClass (session laterPreference (savedTheme left) 0) = isDark left.
Proof.
  intros Hn. destruct n as [|n]; [lia|]. cbn zeta.
  unfold session. rewrite toggles_last.
  set (st := toggles n (applySavedTheme prefersDark (loaded stored))).
  destruct (toggleTheme_in_step st) as [Hc [Hs _]].
  split; [exact Hc|]. split; [exact Hs|].
  cbn [toggles].
  pose proof (applySavedTheme_after_toggle laterPreference st) as H.
  split; [exact H|].
  rewrite <- H. reflexivity.
Qed.

(** Without a stored choice the platform decides, with one the
    platform is not asked: a first visit (nothing stored, or an empty
    entry) comes up dark exactly when the platform prefers dark; with
    any other entry the page comes up dark exactly when the entry is
    [dark]; and [n] clicks flip the theme [n] times. *)
Lemma theme_on_load (prefersDark : bool) (stored : option jsstring)
    (n : nat) :
  isDark (session prefersDark stored 0)
  = match stored with
    | None => prefersDark
    | Some saved =>
        if truthy saved then eqb saved (lit "dark") else prefersDark
    end
  /\ isDark (session prefersDark stored n)
     = xorb (Nat.odd n) (isDark (session prefersDark stored 0))
  /\ darkClass (session prefersDark stored n)
     = isDark (session prefersDark stored n).
Proof.
  split; [|split].
  - unfold session. cbn [toggles applySavedTheme loaded savedTheme isDark].
    destruct stored as [[|c saved]|]; cbn [truthy negb andb orb eqb];
      [now destruct prefersDark | | reflexivity].
    now rewrite orb_false_r.
  - unfold session. cbn [toggles].
    set (st := applySavedTheme prefersDark (loaded stored)). clearbody st.
    induction n as [|n IH]; [cbn; now destruct (isDark st)|].
    rewrite toggles_last, Nat.odd_succ, <- Nat.negb_odd.
    destruct (toggleTheme_in_step (toggles n st)) as [_ [_ ->]].
    rewrite IH. now destruct (Nat.odd n), (isDark st).
  - unfold session. destruct n as [|n]; [reflexivity|].
    rewrite toggles_last. apply toggleTheme_in_step.
Qed.

Lemma theme_choice_survives_reload_witness :
  isDark (session true (savedTheme (session false None 1)) 0) = true.
Proof.
  exact (proj1 (proj2 (proj2 (theme_choice_survives_reload false true None 1
           (Nat.lt_0_succ 0))))).
Defined.

End ThemeFacts.

(** ** UrlPreview: title or notice *)

Module PreviewFacts.

Import UrlPreview.

Lemma hasOwnTitle_lacks (urlData : UrlData) :
  hasOwnTitle urlData = negb (lacksOwnTitle urlData).
Proof.
  unfold hasOwnTitle, lacksOwnTitle.
  destruct (title urlData) as [t|]; [|reflexivity].
  now rewrite negb_orb, negb_involutive.
Qed.

Lemma tick_settling (urlData : UrlData) (since now : N) (pw : PreviewWorld) :
  settling urlData since pw -> settling urlData since (tick now pw).
Proof.
  intros [Hp H]. unfold tick.
  destruct H as [[Ht [Hl Hc]] | [Ht H]]; rewrite Ht; [|now split; [|right]].
  destruct (since + 1000 <=? now); [|split; [exact Hp | now left]].
  split; [exact Hp|]. right. cbn. rewrite Hp, Hc.
  now destruct (lacksOwnTitle urlData).
Qed.

Lemma previewStep_settling (urlData : UrlData) (since now : N)
    (e : previewEvent) (pw : PreviewWorld) :
  keepsProps (now, e) ->
  settling urlData since pw -> settling urlData since (previewStep now e pw).
Proof.
  intros Hk H. apply (tick_settling urlData since now) in H.
  unfold previewStep. destruct e as [d| |]; [destruct Hk | |];
    destruct H as [Hp H]; (split; [exact Hp|]); exact H.
Qed.

(** X19: a preview mounted with some data and left with it shows the
    skeleton until the timer set at mounting has run, and from 1000 ms
    after mounting it shows the card with the host name and the address,
    and with exactly one of the two: the title block, or the notice
    about the limited preview. *)
Theorem preview_shows_title_or_notice (urlData : UrlData) (since now : N)
    (trace : list (N * previewEvent)) :
  Forall keepsProps trace ->
  since + 1000 <= now ->
  exists card,
    render urlData
      (state (tick now (runPreview trace (mount since urlData))))
    = Shown card
    /\ heading card = domain urlData
    /\ address card = url urlData
    /\ noticeShown card = lacksOwnTitle urlData
    /\ (cardTitle card = None <-> noticeShown card = true).
Proof.
  intros Htrace Hnow.
  assert (H : settling urlData since (runPreview trace (mount since urlData))).
  { unfold runPreview.
    assert (H0 : settling urlData since (mount since urlData))
      by (split; [reflexivity | left; now repeat split]).
    revert H0. generalize (mount since urlData).
    induction Htrace as [|[t e] rest Hstep Hrest IH]; intros pw H0;
      [exact H0|].
    cbn [fold_left fst snd]. apply IH. now apply previewStep_settling. }
  apply (tick_settling urlData since now) in H.
  set (pw := tick now (runPreview trace (mount since urlData))) in *.
  assert (Hdone : isLoading (state pw) = false
                  /\ corsBlocked (state pw) = lacksOwnTitle urlData).
  { subst pw. unfold tick in *.
    set (pw0 := runPreview trace (mount since urlData)) in *. clearbody pw0.
    destruct (timer pw0) as [d|] eqn:Et.
    - destruct (d <=? now) eqn:Ed.
      + destruct H as [_ [[H _] | [_ H]]]; [discriminate | exact H].
      + destruct H as [_ [[H _] | [H _]]]; [|congruence].
        rewrite Et in H. injection H as ->. apply N.leb_gt in Ed. lia.
    - destruct H as [_ [[H _] | [_ H]]]; [congruence | exact H]. }
  destruct Hdone as [Hl Hc]. unfold render. rewrite Hl.
  eexists. split; [reflexivity|]. cbn [heading address noticeShown cardTitle].
  rewrite Hc, hasOwnTitle_lacks. repeat split; auto.
  - destruct (lacksOwnTitle urlData) eqn:E; [reflexivity|]. cbn [negb].
    unfold lacksOwnTitle in E. destruct (title urlData); discriminate.
  - now intros ->.
Qed.

(** X20: the two latches of the preview.  Once loading is over it never
    shows the skeleton again, and once the notice about the limited
    preview is up it stays up, whatever data the preview is given
    later. *)
Theorem preview_never_resets (trace : list (N * previewEvent)) (now : N)
    (pw : PreviewWorld) :
  (isLoading (state pw) = false ->
   isLoading (state (tick now (runPreview trace pw))) = false)
  /\ (corsBlocked (state pw) = true ->
      corsBlocked (state (tick now (runPreview trace pw))) = true).
Proof.
  assert (Tick : forall t p,
            (isLoading (state p) = false ->
             isLoading (state (tick t p)) = false)
            /\ (corsBlocked (state p) = true ->
                corsBlocked (state (tick t p)) = true)).
  { intros t p. unfold tick. destruct (timer p) as [d|]; [|auto].
    destruct (d <=? t); [|auto]. cbn. split; [auto|].
    intros ->. now destruct (lacksOwnTitle (props p)). }
  assert (Step : forall t e p,
            (isLoading (state p) = false ->
             isLoading (state (previewStep t e p)) = false)
            /\ (corsBlocked (state p) = true ->
                corsBlocked (state (previewStep t e p)) = true)).
  { intros t e p. destruct (Tick t p) as [T1 T2].
    unfold previewStep. destruct e; cbn; auto. }
  revert pw. unfold runPreview.
  induction trace as [|[t e] rest IH]; intros pw; cbn [fold_left fst snd].
  - apply Tick.
  - destruct (Step t e pw) as [S1 S2]. destruct (IH (previewStep t e pw)).
    auto.
Qed.

Section WithPlatform.

Variable newURL : jsstring -> option URL.

(** X21: for data passed on by handleSubmit the preview has a title of
    its own to show exactly when the metadata requests gave a title that
    is not empty and differs from the host name; otherwise (blocked
    requests among them) the title is the host name and the preview
    shows the notice about the limited preview instead. *)
Theorem fallback_title_brings_notice (meta : UrlForm.Metadata)
    (st : UrlForm.FormState) (data : UrlData) :
  snd (UrlForm.handleSubmit newURL meta st) = Some data ->
  (lacksOwnTitle data = false <->
   exists given,
     UrlForm.metaTitle meta = Some given
     /\ given <> [] /\ given <> domain data)
  /\ (lacksOwnTitle data = true -> title data = Some (domain data)).
Proof.
  unfold UrlForm.handleSubmit.
  destruct (trim (UrlForm.formUrl st)) as [|c t]; [discriminate|].
  cbn [truthy negb].
  destruct (UrlForm.validateUrl newURL
              (UrlForm.normalizeUrl (UrlForm.formUrl st))); cbn [negb];
    [|discriminate].
  destruct (newURL (UrlForm.normalizeUrl (UrlForm.formUrl st))) as [u|];
    [|discriminate].
  cbn [snd]. intros E. injection E as <-.
  unfold lacksOwnTitle, orElse. cbn [title domain].
  destruct (UrlForm.metaTitle meta) as [[|g given]|]; cbn [truthy].
  - rewrite (proj2 (eqb_eq _ _) eq_refl), orb_true_r. split; [|auto].
    split; [discriminate|]. intros [x [E [Hx _]]]. injection E as <-.
    congruence.
  - cbn [negb orb]. split.
    + rewrite eqb_neq. split.
      * intros H. exists (g :: given). repeat split; [discriminate | exact H].
      * intros [x [E [_ Hx]]]. now injection E as <-.
    + intros H. apply eqb_eq in H. now rewrite H.
  - rewrite (proj2 (eqb_eq _ _) eq_refl), orb_true_r. split; [|auto].
    split; [discriminate|]. intros [x [E _]]. discriminate.
Qed.

End WithPlatform.

Lemma preview_shows_title_or_notice_witness :
  exists card,
    render App.exampleUrl
      (state (tick 1500
         (runPreview [(200, FaviconFailed)] (mount 0 App.exampleUrl))))
    = Shown card
    /\ heading card = domain App.exampleUrl
    /\ address card = url App.exampleUrl
    /\ noticeShown card = lacksOwnTitle App.exampleUrl
    /\ (cardTitle card = None <-> noticeShown card = true).
Proof.
  apply (preview_shows_title_or_notice App.exampleUrl 0 1500
           [(200, FaviconFailed)]).
  - repeat constructor.
  - discriminate.
Defined.

Lemma fallback_title_brings_notice_witness :
  lacksOwnTitle
    (mkUrlData (lit "https://example.com") (lit "example.com")
       (Some (lit "https://example.com/favicon.ico"))
       (Some (lit "Example Domain")) None None)
  = false.
Proof.
  apply (proj1 (fallback_title_brings_notice WHATWG.newURL
           (UrlForm.mkMetadata (Some (lit "Example Domain")) None None)
           (UrlForm.mkForm (lit "example.com") (lit "") false)
           (mkUrlData (lit "https://example.com") (lit "example.com")
              (Some (lit "https://example.com/favicon.ico"))
              (Some (lit "Example Domain")) None None)
           eq_refl)).
  exists (lit "Example Domain"). repeat split; discriminate.
Defined.

End PreviewFacts.

(** ** App: content types the header tests read differently *)

Module ContentTypeFacts.

Import App.

(** C5 as worded fails: a header can name a JSON type without holding
    the text [application/json] as the code looks for it, and then the
    body is read as text.  With the type in capitals an empty body (which
    is no JSON) leaves the note about no body; with a [+json] type a body
    that is no JSON but starts like an address becomes the image. *)
Lemma json_types_the_code_reads_as_text :
  denotesJson (lit "Application/JSON") = true
  /\ denotesImage (lit "Application/JSON") = false
  /\ webhookNote
       (app (postWebhook noBlobUrl 0
               (Some (mkResponse 200 (Some (lit "Application/JSON")) None
                        None (Some (lit ""))))
               initial))
     = Some noteNoBody
  /\ noteNoBody <> noteNoImage
  /\ denotesJson (lit "application/vnd.api+json; charset=utf-8") = true
  /\ webhookImage
       (app (postWebhook noBlobUrl 0
               (Some (mkResponse 200
                        (Some (lit "application/vnd.api+json; charset=utf-8"))
                        None None (Some (lit "https://x/y.png"))))
               initial))
     = Some (lit "https://x/y.png").
Proof. repeat split. discriminate. Qed.

(** C6 as worded fails: a header that names neither an image nor a JSON
    type can still hold the text [application/json], in a parameter or
    as the start of a longer subtype, and then the body is searched as
    JSON and never read as text: a body that is an address gets the note
    that no image field was found, and so does an empty body. *)
Lemma plain_types_the_code_reads_as_json :
  denotesJson (lit "text/plain; was=application/json") = false
  /\ denotesImage (lit "text/plain; was=application/json") = false
  /\ looksLikeUrl (trim (lit "https://x/y.png")) = true
  /\ option_map (fun w => (webhookImage (app w), webhookNote (app w)))
       (Some (postWebhook noBlobUrl 0
                (Some (mkResponse 200
                         (Some (lit "text/plain; was=application/json"))
                         None None (Some (lit "https://x/y.png"))))
                initial))
     = Some (None, Some noteNoImage)
  /\ denotesJson (lit "application/json-seq") = false
  /\ webhookNote
       (app (postWebhook noBlobUrl 0
               (Some (mkResponse 200 (Some (lit "application/json-seq"))
                        None None (Some (lit ""))))
               initial))
     = Some noteNoImage
  /\ noteNoImage <> noteNoBody.
Proof. repeat split. discriminate. Qed.

End ContentTypeFacts.
